(** * The decision engine of the DevOps intelligence platform

    A shallow embedding of [kestra/scripts/decision_engine.py] and the
    properties of its evaluator ([_make_decision] and the four gates), its
    arbiter ([_apply_business_rules]), its facade ([process_ai_analysis]) and
    its summary ([get_decision_summary]).

    Conventions of the embedding:
    - a Python [float] is a binary64 primitive float; [a >= b] is [b <=? a];
    - a naive [datetime] is the number of microseconds since
      0001-01-01T00:00:00, with the range check of the [datetime] module;
    - [datetime.now()] reads an oracle: the n-th call returns [wall_clock n];
    - a [Decision] object lives in a store and is named by its reference; the
      arbiter updates the store in place, lists hold references;
    - a raised exception is a left injection;
    - the payload is decoded at the types the dataclasses annotate;
    - [logger] calls are left out. *)

From Stdlib Require Import ZArith List Bool Lia PrimFloat FloatOps SpecFloat FloatAxioms Uint63.
From stdpp Require Import gmap strings pretty list.

Set Warnings "-inexact-float,-register-all".
Open Scope Z_scope.

(** ** Exceptions *)

Inductive exn : Type :=
  | JSONDecodeError
  | RecursionError
  | AttributeError
  | TypeError
  | ValueError
  | OverflowError.

Definition Res (A : Type) : Type := (exn + A)%type.

(** ** Floats *)

(** [a >= b] on Python floats (false as soon as one side is a NaN). *)
Definition fge (a b : float) : bool := PrimFloat.leb b a.

(** The float nearest to an integer ([float(n)]). *)
Definition float_of_Z (n : Z) : float :=
  SF2Prim (binary_normalize prec emax n 0 false).

(** Nearest integer to [n / d], ties to the even one ([0 <= n], [0 < d]). *)
Definition div_half_even (n d : Z) : Z :=
  let q := n / d in
  let r := n mod d in
  if 2 * r <? d then q
  else if d <? 2 * r then q + 1
  else if Z.even q then q else q + 1.

(** [|m * 2^e| * 10^k] rounded to the nearest integer, ties to even. *)
Definition scaled_decimal (m : positive) (e : Z) (k : Z) : Z :=
  div_half_even (Z.pos m * 10 ^ k * 2 ^ Z.max e 0) (2 ^ Z.max (- e) 0).


(** Left padding of a decimal numeral with zeros, to [w] characters. *)
Fixpoint zeros (n : nat) : string :=
  match n with
  | O => ""
  | S n' => "0" +:+ zeros n'
  end.

Definition zero_pad (w : nat) (s : string) : string :=
  zeros (w - String.length s) +:+ s.

Definition digits (w : nat) (n : Z) : string := zero_pad w (pretty n).

(** [f"{x:.2f}"]. *)
Definition format_2f (x : float) : string :=
  match Prim2SF x with
  | S754_finite s m e =>
      let k := scaled_decimal m e 2 in
      (if s then "-" else "") +:+ pretty (k / 100) +:+ "." +:+ digits 2 (k mod 100)
  | S754_zero s => (if s then "-" else "") +:+ "0.00"
  | S754_infinity s => (if s then "-" else "") +:+ "inf"
  | S754_nan => "nan"
  end.


(** ** Naive datetimes *)

Definition datetime : Type := Z.

Definition US_PER_SECOND : Z := 1000000.
Definition US_PER_MINUTE : Z := 60 * US_PER_SECOND.
Definition US_PER_HOUR : Z := 60 * US_PER_MINUTE.
Definition US_PER_DAY : Z := 24 * US_PER_HOUR.

(** One past [datetime.max] (9999-12-31T23:59:59.999999, day 3652059). *)
Definition DATETIME_END : Z := 3652059 * US_PER_DAY.

(** [timedelta(microseconds=us)]: at most 999999999 days either way. *)
Definition timedelta (us : Z) : Res Z :=
  if (- 999999999 * US_PER_DAY <=? us) && (us <? 1000000000 * US_PER_DAY)
  then inr us else inl OverflowError.

(** [t + d] for a datetime [t] and a timedelta [d]. *)
Definition datetime_add (t : datetime) (d : Z) : Res datetime :=
  if (0 <=? t + d) && (t + d <? DATETIME_END) then inr (t + d) else inl OverflowError.

(** [t.hour]. *)
Definition hour (t : datetime) : Z := (t / US_PER_HOUR) mod 24.

Definition DAYS_BEFORE_MONTH (m : Z) : Z :=
  nth (Z.to_nat m) [0; 0; 31; 59; 90; 120; 151; 181; 212; 243; 273; 304; 334] 0.

Definition DAYS_IN_MONTH (m : Z) : Z :=
  nth (Z.to_nat m) [0; 31; 28; 31; 30; 31; 30; 31; 31; 30; 31; 30; 31] 0.

(** [_ord2ymd] of the datetime module: proleptic Gregorian ordinal (day 1 is
    0001-01-01) to year, month, day. *)
Definition ord2ymd (ordinal : Z) : Z * Z * Z :=
  let n := ordinal - 1 in
  let n400 := n / 146097 in
  let n := n mod 146097 in
  let n100 := n / 36524 in
  let n := n mod 36524 in
  let n4 := n / 1461 in
  let n := n mod 1461 in
  let n1 := n / 365 in
  let n := n mod 365 in
  let year := n400 * 400 + 1 + n100 * 100 + n4 * 4 + n1 in
  if (n1 =? 4) || (n100 =? 4) then (year - 1, 12, 31)
  else
    let leapyear := (n1 =? 3) && (negb (n4 =? 24) || (n100 =? 3)) in
    let month := (n + 50) / 32 in
    let preceding :=
      DAYS_BEFORE_MONTH month + (if (2 <? month) && leapyear then 1 else 0) in
    if n <? preceding then
      let month := month - 1 in
      let preceding :=
        preceding - (DAYS_IN_MONTH month + (if (month =? 2) && leapyear then 1 else 0)) in
      (year, month, n - preceding + 1)
    else (year, month, n - preceding + 1).

Definition ymd (t : datetime) : Z * Z * Z := ord2ymd (t / US_PER_DAY + 1).
Definition minute (t : datetime) : Z := (t / US_PER_MINUTE) mod 60.
Definition second (t : datetime) : Z := (t / US_PER_SECOND) mod 60.
Definition microsecond (t : datetime) : Z := t mod US_PER_SECOND.

(** [t.strftime('%Y%m%d_%H%M%S')]. *)
Definition strftime_compact (t : datetime) : string :=
  let '(y, m, d) := ymd t in
  digits 4 y +:+ digits 2 m +:+ digits 2 d +:+ "_" +:+
  digits 2 (hour t) +:+ digits 2 (minute t) +:+ digits 2 (second t).

(** [t.isoformat()]. *)
Definition isoformat (t : datetime) : string :=
  let '(y, m, d) := ymd t in
  digits 4 y +:+ "-" +:+ digits 2 m +:+ "-" +:+ digits 2 d +:+ "T" +:+
  digits 2 (hour t) +:+ ":" +:+ digits 2 (minute t) +:+ ":" +:+ digits 2 (second t) +:+
  (if microsecond t =? 0 then "" else "." +:+ digits 6 (microsecond t)).

(** Microseconds of 2024-01-15T13:30:00, a reference instant. *)
Definition sample_instant : datetime :=
  738899 * US_PER_DAY + 13 * US_PER_HOUR + 30 * US_PER_MINUTE.

(** ** Enumerations *)

Inductive Severity : Type := LOW | MEDIUM | HIGH | CRITICAL.

Inductive ActionType : Type :=
  | CODE_FIX
  | SCALE_UP
  | SCALE_DOWN
  | RESTART_SERVICE
  | ROLLBACK
  | CONFIGURATION_CHANGE
  | MANUAL_REVIEW.

Inductive DecisionOutcome : Type :=
  | AUTO_RESOLVE
  | SCHEDULE_MAINTENANCE
  | ESCALATE_HUMAN
  | MONITOR_ONLY.

#[global] Instance Severity_eq_dec : EqDecision Severity.
Proof. solve_decision. Defined.

#[global] Instance ActionType_eq_dec : EqDecision ActionType.
Proof. solve_decision. Defined.

#[global] Instance DecisionOutcome_eq_dec : EqDecision DecisionOutcome.
Proof. solve_decision. Defined.

Definition Severity_value (s : Severity) : string :=
  match s with
  | LOW => "low" | MEDIUM => "medium" | HIGH => "high" | CRITICAL => "critical"
  end.

Definition ActionType_value (a : ActionType) : string :=
  match a with
  | CODE_FIX => "code_fix"
  | SCALE_UP => "scale_up"
  | SCALE_DOWN => "scale_down"
  | RESTART_SERVICE => "restart_service"
  | ROLLBACK => "rollback"
  | CONFIGURATION_CHANGE => "configuration_change"
  | MANUAL_REVIEW => "manual_review"
  end.


(** ** Decoded JSON *)

(** What [json.loads] builds.  An object keeps its keys in insertion order,
    each key once. *)
Inductive json : Type :=
  | JNull
  | JBool (b : bool)
  | JInt (n : Z)
  | JFloat (f : float)
  | JStr (s : string)
  | JArr (items : list json)
  | JObj (fields : list (string * json)).

Fixpoint assoc (k : string) (kv : list (string * json)) : option json :=
  match kv with
  | [] => None
  | (k', v) :: rest => if String.eqb k k' then Some v else assoc k rest
  end.

(** [v.get(k, default)]: only a dict has the method. *)
Definition json_get (v : json) (k : string) (default : json) : Res json :=
  match v with
  | JObj kv => inr (match assoc k kv with Some x => x | None => default end)
  | _ => inl AttributeError
  end.

(** The items a [for] loop draws from a decoded value. *)
Definition json_iter (v : json) : Res (list json) :=
  match v with
  | JArr l => inr l
  | JObj kv => inr (map (fun p => JStr (fst p)) kv)
  | JStr s => inr (map (fun c => JStr (String c EmptyString)) (String.list_ascii_of_string s))
  | _ => inl TypeError
  end.

(** [Severity(v)] and [ActionType(v)]: lookup of a member by value. *)
Definition Severity_of (v : json) : Res Severity :=
  match v with
  | JStr s =>
      if String.eqb s "low" then inr LOW
      else if String.eqb s "medium" then inr MEDIUM
      else if String.eqb s "high" then inr HIGH
      else if String.eqb s "critical" then inr CRITICAL
      else inl ValueError
  | _ => inl ValueError
  end.

Definition ActionType_of (v : json) : Res ActionType :=
  match v with
  | JStr s =>
      if String.eqb s "code_fix" then inr CODE_FIX
      else if String.eqb s "scale_up" then inr SCALE_UP
      else if String.eqb s "scale_down" then inr SCALE_DOWN
      else if String.eqb s "restart_service" then inr RESTART_SERVICE
      else if String.eqb s "rollback" then inr ROLLBACK
      else if String.eqb s "configuration_change" then inr CONFIGURATION_CHANGE
      else if String.eqb s "manual_review" then inr MANUAL_REVIEW
      else inl ValueError
  | _ => inl ValueError
  end.

(** The dataclasses annotate their fields; the fields the engine computes
    with are decoded at the annotated type, and a value of another JSON type
    is a [TypeError].  The fields the engine only carries along stay as
    decoded. *)
Definition as_str (v : json) : Res string :=
  match v with JStr s => inr s | _ => inl TypeError end.

Definition as_int (v : json) : Res Z :=
  match v with
  | JInt n => inr n
  | JBool b => inr (if b then 1 else 0)
  | _ => inl TypeError
  end.

Definition as_float (v : json) : Res float :=
  match v with
  | JFloat f => inr f
  | JInt n => inr (float_of_Z n)
  | JBool b => inr (if b then 1%float else 0%float)
  | _ => inl TypeError
  end.

Fixpoint as_str_list_items (l : list json) : Res (list string) :=
  match l with
  | [] => inr []
  | v :: rest =>
      match as_str v with
      | inl e => inl e
      | inr s =>
          match as_str_list_items rest with
          | inl e => inl e
          | inr ss => inr (s :: ss)
          end
      end
  end.

Definition as_str_list (v : json) : Res (list string) :=
  match v with JArr l => as_str_list_items l | _ => inl TypeError end.

(** ** Data model *)

Module Issue.
Record t : Type := mk {
  id : string;
  description : json;
  severity : Severity;
  source : json;
  timestamp : datetime;
  error_count : json;
  affected_services : list string;
  metadata : json
}.
End Issue.

Module Recommendation.
Record t : Type := mk {
  issue_id : string;
  action_type : ActionType;
  confidence_score : float;
  estimated_impact : json;
  suggested_fix : json;
  risk_assessment : json;
  time_estimate : Z;
  prerequisites : json
}.
End Recommendation.

Module Decision.
Record t : Type := mk {
  id : string;
  issue_id : string;
  recommendation : Recommendation.t;
  outcome : DecisionOutcome;
  confidence : float;
  reasoning : string;
  timestamp : datetime;
  auto_approved : bool;
  estimated_completion : datetime
}.

Definition set_outcome (o : DecisionOutcome) (d : t) : t :=
  mk (id d) (issue_id d) (recommendation d) o (confidence d) (reasoning d)
     (timestamp d) (auto_approved d) (estimated_completion d).

Definition set_auto_approved (b : bool) (d : t) : t :=
  mk (id d) (issue_id d) (recommendation d) (outcome d) (confidence d) (reasoning d)
     (timestamp d) b (estimated_completion d).

Definition set_reasoning (s : string) (d : t) : t :=
  mk (id d) (issue_id d) (recommendation d) (outcome d) (confidence d) s
     (timestamp d) (auto_approved d) (estimated_completion d).
End Decision.

(** The attributes [__init__] reads from the configuration. *)
Record DecisionEngine : Type := {
  confidence_threshold : float;
  max_auto_deployments_per_hour : Z;
  business_hours_only : bool;
  critical_services : list string
}.

(** [config.get(key, default)] of [__init__], for a configuration whose
    values have the documented types. *)
Definition DecisionEngine_init
    (threshold : option float) (cap : option Z)
    (hours_only : option bool) (critical : option (list string)) : DecisionEngine :=
  {| confidence_threshold := default 0.8%float threshold;
     max_auto_deployments_per_hour := default 5 cap;
     business_hours_only := default false hours_only;
     critical_services := default [] critical |}.

(** ** The world: clock, object store, rolling history *)

Definition ref : Type := nat.

Record World : Type := {
  wall_clock : nat -> datetime;
  ticks : nat;
  store : ref -> Decision.t;
  next_ref : ref;
  recent_decisions : list ref
}.

Definition set_ticks (n : nat) (w : World) : World :=
  {| wall_clock := wall_clock w; ticks := n; store := store w;
     next_ref := next_ref w; recent_decisions := recent_decisions w |}.

Definition set_store (s : ref -> Decision.t) (w : World) : World :=
  {| wall_clock := wall_clock w; ticks := ticks w; store := s;
     next_ref := next_ref w; recent_decisions := recent_decisions w |}.

Definition set_next_ref (n : ref) (w : World) : World :=
  {| wall_clock := wall_clock w; ticks := ticks w; store := store w;
     next_ref := n; recent_decisions := recent_decisions w |}.

Definition set_recent_decisions (l : list ref) (w : World) : World :=
  {| wall_clock := wall_clock w; ticks := ticks w; store := store w;
     next_ref := next_ref w; recent_decisions := l |}.

(** In-place update of the object behind a reference. *)
Definition update (s : ref -> Decision.t) (r : ref) (d : Decision.t) : ref -> Decision.t :=
  fun r' => if Nat.eqb r' r then d else s r'.

(** Computations that read the clock, touch the store and may raise. *)
Definition M (A : Type) : Type := World -> Res A * World.

Definition ret {A} (a : A) : M A := fun w => (inr a, w).

Definition bind {A B} (m : M A) (f : A -> M B) : M B :=
  fun w =>
    match m w with
    | (inl e, w') => (inl e, w')
    | (inr a, w') => f a w'
    end.

Definition lift {A} (r : Res A) : M A := fun w => (r, w).

Notation "'do' x <- m ; k" := (bind m (fun x => k))
  (at level 10, x name, m at level 100, k at level 200, only parsing).

(** [datetime.now()]. *)
Definition now : M datetime :=
  fun w => (inr (wall_clock w (ticks w)), set_ticks (S (ticks w)) w).

(** Construction of a [Decision] object: a fresh reference. *)
Definition new_decision (d : Decision.t) : M ref :=
  fun w =>
    (inr (next_ref w),
     set_next_ref (S (next_ref w)) (set_store (update (store w) (next_ref w) d) w)).

(** ** Parsing of the analysis payload *)

Section Parsing.

(** [datetime.fromisoformat], a parser of the standard library. *)
Variable fromisoformat : string -> Res datetime.

(** One turn of the loop of [_parse_issues]: builds the [Issue] of
    [issue_data] and stores it under its id.  The default of the timestamp
    reads the clock whether or not the key is present. *)
Definition parse_issue (issues : gmap string Issue.t) (issue_data : json)
    : M (gmap string Issue.t) :=
  do id_v <- lift (json_get issue_data "id"
                     (JStr ("issue_" +:+ pretty (Z.of_nat (size issues)))));
  do description <- lift (json_get issue_data "description" (JStr "Unknown issue"));
  do severity_v <- lift (json_get issue_data "severity" (JStr "medium"));
  do severity <- lift (Severity_of severity_v);
  do source <- lift (json_get issue_data "source" (JStr "unknown"));
  do t <- now;
  do timestamp_v <- lift (json_get issue_data "timestamp" (JStr (isoformat t)));
  do timestamp_s <- lift (as_str timestamp_v);
  do timestamp <- lift (fromisoformat timestamp_s);
  do error_count <- lift (json_get issue_data "error_count" (JInt 0));
  do affected_v <- lift (json_get issue_data "affected_services" (JArr []));
  do affected_services <- lift (as_str_list affected_v);
  do metadata <- lift (json_get issue_data "metadata" (JObj []));
  do id <- lift (as_str id_v);
  ret (<[id := Issue.mk id description severity source timestamp error_count
                        affected_services metadata]> issues).

Fixpoint parse_issues_loop (items : list json) (issues : gmap string Issue.t)
    : M (gmap string Issue.t) :=
  match items with
  | [] => ret issues
  | issue_data :: rest =>
      do issues' <- parse_issue issues issue_data;
      parse_issues_loop rest issues'
  end.

Definition _parse_issues (issues_data : json) : M (gmap string Issue.t) :=
  do items <- lift (json_iter issues_data);
  parse_issues_loop items ∅.

End Parsing.

Definition parse_recommendation (rec_data : json) : Res Recommendation.t :=
  match json_get rec_data "issue_id" (JStr "unknown") with inl e => inl e | inr issue_id_v =>
  match as_str issue_id_v with inl e => inl e | inr issue_id =>
  match json_get rec_data "action_type" (JStr "manual_review") with inl e => inl e | inr action_v =>
  match ActionType_of action_v with inl e => inl e | inr action_type =>
  match json_get rec_data "confidence_score" (JFloat 0) with inl e => inl e | inr confidence_v =>
  match as_float confidence_v with inl e => inl e | inr confidence_score =>
  match json_get rec_data "estimated_impact" (JStr "Unknown") with inl e => inl e | inr estimated_impact =>
  match json_get rec_data "suggested_fix" (JStr "") with inl e => inl e | inr suggested_fix =>
  match json_get rec_data "risk_assessment" (JStr "Medium risk") with inl e => inl e | inr risk_assessment =>
  match json_get rec_data "time_estimate" (JInt 30) with inl e => inl e | inr time_v =>
  match as_int time_v with inl e => inl e | inr time_estimate =>
  match json_get rec_data "prerequisites" (JArr []) with inl e => inl e | inr prerequisites =>
  inr (Recommendation.mk issue_id action_type confidence_score estimated_impact
                         suggested_fix risk_assessment time_estimate prerequisites)
  end end end end end end end end end end end end.

Fixpoint parse_recommendations_loop (items : list json) : Res (list Recommendation.t) :=
  match items with
  | [] => inr []
  | rec_data :: rest =>
      match parse_recommendation rec_data with
      | inl e => inl e
      | inr r =>
          match parse_recommendations_loop rest with
          | inl e => inl e
          | inr rs => inr (r :: rs)
          end
      end
  end.

Definition _parse_recommendations (recommendations_data : json) : Res (list Recommendation.t) :=
  match json_iter recommendations_data with
  | inl e => inl e
  | inr items => parse_recommendations_loop items
  end.

(** ** The evaluator: four gates and the disposition *)

Definition str_in (s : string) (l : list string) : bool := existsb (String.eqb s) l.

Definition action_in (a : ActionType) (l : list ActionType) : bool :=
  existsb (fun b => bool_decide (a = b)) l.

Definition severity_in (s : Severity) (l : list Severity) : bool :=
  existsb (fun b => bool_decide (s = b)) l.

Definition _evaluate_severity_risk (issue : Issue.t) (recommendation : Recommendation.t) : bool :=
  if bool_decide (Issue.severity issue = CRITICAL)
  then fge (Recommendation.confidence_score recommendation) 0.95
  else if bool_decide (Issue.severity issue = HIGH)
  then fge (Recommendation.confidence_score recommendation) 0.85
  else true.

Definition _evaluate_business_impact (self : DecisionEngine)
    (issue : Issue.t) (recommendation : Recommendation.t) : M bool :=
  let critical_services_affected :=
    existsb (fun service => str_in service (critical_services self))
            (Issue.affected_services issue) in
  if critical_services_affected then
    let safe_actions := [SCALE_UP; CONFIGURATION_CHANGE] in
    ret (action_in (Recommendation.action_type recommendation) safe_actions
         && fge (Recommendation.confidence_score recommendation) 0.9)
  else if business_hours_only self then
    do t <- now;
    let current_hour := hour t in
    let is_business_hours := (9 <=? current_hour) && (current_hour <=? 17) in
    if negb is_business_hours && severity_in (Issue.severity issue) [HIGH; CRITICAL]
    then ret false
    else ret true
  else ret true.

(** The prerequisites only feed a log line in the source. *)
Definition _evaluate_technical_feasibility (recommendation : Recommendation.t) : bool :=
  let safe_actions := [SCALE_UP; CONFIGURATION_CHANGE; RESTART_SERVICE] in
  let risky_actions := [ROLLBACK; CODE_FIX] in
  if action_in (Recommendation.action_type recommendation) risky_actions
  then fge (Recommendation.confidence_score recommendation) 0.9
  else action_in (Recommendation.action_type recommendation) safe_actions.

Definition _create_escalation_decision (recommendation : Recommendation.t) (reason : string)
    : M ref :=
  do t_id <- now;
  do t_stamp <- now;
  do t_completion <- now;
  do two_hours <- lift (timedelta (2 * US_PER_HOUR));
  do estimated_completion <- lift (datetime_add t_completion two_hours);
  new_decision
    (Decision.mk ("escalation_" +:+ strftime_compact t_id)
                 (Recommendation.issue_id recommendation)
                 recommendation
                 ESCALATE_HUMAN
                 0%float
                 reason
                 t_stamp
                 false
                 estimated_completion).

(** The three branches of the final decision: outcome, auto_approved and
    reasoning. *)
Definition disposition (all_checks : bool) (recommendation : Recommendation.t)
    (issue : Issue.t) : DecisionOutcome * bool * string :=
  if all_checks then
    (AUTO_RESOLVE, true,
     "All checks passed: confidence="
       +:+ format_2f (Recommendation.confidence_score recommendation)
       +:+ ", severity=" +:+ Severity_value (Issue.severity issue))
  else if fge (Recommendation.confidence_score recommendation) 0.6
          && negb (bool_decide (Issue.severity issue = CRITICAL)) then
    (SCHEDULE_MAINTENANCE, false, "Medium confidence, scheduling for maintenance window")
  else
    (ESCALATE_HUMAN, false,
     "Failed checks: confidence="
       +:+ format_2f (Recommendation.confidence_score recommendation)
       +:+ ", severity=" +:+ Severity_value (Issue.severity issue)).

Definition _make_decision (self : DecisionEngine) (recommendation : Recommendation.t)
    (issues : gmap string Issue.t) : M ref :=
  match issues !! Recommendation.issue_id recommendation with
  | None => _create_escalation_decision recommendation "Issue not found"
  | Some issue =>
      let confidence_check :=
        fge (Recommendation.confidence_score recommendation) (confidence_threshold self) in
      let severity_check := _evaluate_severity_risk issue recommendation in
      do business_impact_check <- _evaluate_business_impact self issue recommendation;
      let technical_check := _evaluate_technical_feasibility recommendation in
      let '(outcome, auto_approved, reasoning) :=
        disposition (forallb (fun b : bool => b)
                       [confidence_check; severity_check; business_impact_check; technical_check])
                    recommendation issue in
      do t_id <- now;
      do t_stamp <- now;
      do t_completion <- now;
      do estimate <- lift (timedelta (Recommendation.time_estimate recommendation * US_PER_MINUTE));
      do estimated_completion <- lift (datetime_add t_completion estimate);
      new_decision
        (Decision.mk ("decision_" +:+ strftime_compact t_id +:+ "_"
                        +:+ Recommendation.issue_id recommendation)
                     (Recommendation.issue_id recommendation)
                     recommendation
                     outcome
                     (Recommendation.confidence_score recommendation)
                     reasoning
                     t_stamp
                     auto_approved
                     estimated_completion)
  end.

(** ** The arbiter: rate limiting over the rolling history *)

(** [d.auto_approved and d.outcome == DecisionOutcome.AUTO_RESOLVE]. *)
Definition is_auto_resolve (d : Decision.t) : bool :=
  Decision.auto_approved d && bool_decide (Decision.outcome d = AUTO_RESOLVE).

Definition RATE_LIMIT_NOTE : string :=
  " (Rate limited - converted to scheduled maintenance)".

(** The three assignments of the rate-limited branch. *)
Definition downgrade (d : Decision.t) : Decision.t :=
  let d := Decision.set_outcome SCHEDULE_MAINTENANCE d in
  let d := Decision.set_auto_approved false d in
  Decision.set_reasoning (Decision.reasoning d +:+ RATE_LIMIT_NOTE) d.

(** The [for] loop of [_apply_business_rules], on the store [s], with the
    counter [auto_approvals_added] and the two lists appended to. *)
Fixpoint rate_limit_loop (cap recent_auto_approvals : Z) (decisions : list ref)
    (s : ref -> Decision.t) (auto_approvals_added : Z)
    (filtered_decisions history : list ref)
    : (ref -> Decision.t) * list ref * list ref :=
  match decisions with
  | [] => (s, filtered_decisions, history)
  | decision :: rest =>
      if is_auto_resolve (s decision) then
        if cap <=? recent_auto_approvals + auto_approvals_added then
          rate_limit_loop cap recent_auto_approvals rest
            (update s decision (downgrade (s decision))) auto_approvals_added
            (filtered_decisions ++ [decision]) (history ++ [decision])
        else
          rate_limit_loop cap recent_auto_approvals rest
            s (auto_approvals_added + 1)
            (filtered_decisions ++ [decision]) (history ++ [decision])
      else
        rate_limit_loop cap recent_auto_approvals rest
          s auto_approvals_added
          (filtered_decisions ++ [decision]) (history ++ [decision])
  end.

(** The history entries kept by the clean-up: [d.timestamp > cutoff_time]. *)
Definition prune (s : ref -> Decision.t) (cutoff_time : datetime) (history : list ref)
    : list ref :=
  List.filter (fun r => cutoff_time <? Decision.timestamp (s r)) history.

(** [sum(1 for d in history if ...)]. *)
Definition count_auto_approvals (s : ref -> Decision.t) (history : list ref) : Z :=
  Z.of_nat (length (List.filter (fun r => is_auto_resolve (s r)) history)).

Definition _apply_business_rules (self : DecisionEngine) (decisions : list ref)
    : M (list ref) :=
  do t <- now;
  do one_hour <- lift (timedelta US_PER_HOUR);
  do cutoff_time <- lift (datetime_add t (- one_hour));
  fun w =>
    let kept := prune (store w) cutoff_time (recent_decisions w) in
    let recent_auto_approvals := count_auto_approvals (store w) kept in
    let '(s, filtered_decisions, history) :=
      rate_limit_loop (max_auto_deployments_per_hour self) recent_auto_approvals
                      decisions (store w) 0 [] kept in
    (inr filtered_decisions, set_recent_decisions history (set_store s w)).

(** ** The facade *)

Fixpoint make_decisions (self : DecisionEngine) (recommendations : list Recommendation.t)
    (issues : gmap string Issue.t) (decisions : list ref) : M (list ref) :=
  match recommendations with
  | [] => ret decisions
  | recommendation :: rest =>
      do decision <- _make_decision self recommendation issues;
      make_decisions self rest issues (decisions ++ [decision])
  end.

Section Facade.

(** [json.loads] and [datetime.fromisoformat] of the standard library. *)
Variable json_loads : string -> Res json.
Variable fromisoformat : string -> Res datetime.

(** The body of the [try] block. *)
Definition process_ai_analysis_try (self : DecisionEngine) (ai_response : string)
    : M (list ref) :=
  do analysis <- lift (json_loads ai_response);
  do issues_data <- lift (json_get analysis "issues" (JArr []));
  do issues <- _parse_issues fromisoformat issues_data;
  do recommendations_data <- lift (json_get analysis "recommendations" (JArr []));
  do recommendations <- lift (_parse_recommendations recommendations_data);
  do decisions <- make_decisions self recommendations issues [];
  _apply_business_rules self decisions.

(** The two [except] clauses both return the empty list. *)
Definition process_ai_analysis (self : DecisionEngine) (ai_response : string)
    (w : World) : list ref * World :=
  match process_ai_analysis_try self ai_response w with
  | (inr filtered_decisions, w') => (filtered_decisions, w')
  | (inl JSONDecodeError, w') => ([], w')
  | (inl _, w') => ([], w')
  end.

End Facade.


(** ** The summary *)





(** ** Vocabulary of the statements *)

Definition with_prerequisites (p : json) (r : Recommendation.t) : Recommendation.t :=
  Recommendation.mk (Recommendation.issue_id r) (Recommendation.action_type r)
    (Recommendation.confidence_score r) (Recommendation.estimated_impact r)
    (Recommendation.suggested_fix r) (Recommendation.risk_assessment r)
    (Recommendation.time_estimate r) p.

(** The value of the business-impact gate when evaluated in the world [w]. *)
Definition business_impact_passes (self : DecisionEngine) (issue : Issue.t)
    (r : Recommendation.t) (w : World) : bool :=
  match fst (_evaluate_business_impact self issue r w) with
  | inr b => b
  | inl _ => false
  end.

(** The four gates, in the order of the specification. *)
Definition all_gates_pass (self : DecisionEngine) (issue : Issue.t)
    (r : Recommendation.t) (w : World) : bool :=
  fge (Recommendation.confidence_score r) (confidence_threshold self)
  && _evaluate_severity_risk issue r
  && business_impact_passes self issue r w
  && _evaluate_technical_feasibility r.

(** The wall clock stays at least an hour after [datetime.min] and more than
    two hours before [datetime.max]. *)
Definition clock_sane (w : World) : Prop :=
  forall n, US_PER_HOUR <= wall_clock w n /\ wall_clock w n + 2 * US_PER_HOUR < DATETIME_END.

(** A time estimate of [m] minutes is a valid [timedelta] and leads to a valid
    [datetime] from every clock reading. *)
Definition estimate_fits (w : World) (m : Z) : Prop :=
  - 999999999 * US_PER_DAY <= m * US_PER_MINUTE < 1000000000 * US_PER_DAY
  /\ forall n, 0 <= wall_clock w n + m * US_PER_MINUTE < DATETIME_END.

(** The worlds [w] and [w'] differ at most in the number of clock readings. *)
Definition same_objects (w w' : World) : Prop :=
  wall_clock w' = wall_clock w /\ store w' = store w
  /\ next_ref w' = next_ref w /\ recent_decisions w' = recent_decisions w.

(** What [_make_decision] builds for a recommendation whose issue is known. *)
Definition provisional (self : DecisionEngine) (r : Recommendation.t) (issue : Issue.t)
    (w : World) (t_id t_stamp t_completion : datetime) : Decision.t :=
  let '(outcome, auto_approved, reasoning) := disposition (all_gates_pass self issue r w) r issue in
  Decision.mk ("decision_" +:+ strftime_compact t_id +:+ "_" +:+ Recommendation.issue_id r)
    (Recommendation.issue_id r) r outcome (Recommendation.confidence_score r)
    reasoning t_stamp auto_approved
    (t_completion + Recommendation.time_estimate r * US_PER_MINUTE).

(** Computations that touch nothing but the count of clock readings. *)
Definition reads_only {A} (m : M A) : Prop :=
  forall w r w1, m w = (r, w1) -> same_objects w w1.

(** A decision as the engine leaves it: approved exactly when auto-resolve,
    and never monitor-only. *)
Definition settled (d : Decision.t) : Prop :=
  (Decision.auto_approved d = true <-> Decision.outcome d = AUTO_RESOLVE)
  /\ Decision.outcome d <> MONITOR_ONLY.

(** ** Sample data *)

(** A clock that advances by a millisecond per reading, for a thousand
    seconds from the reference instant. *)
Definition steady_clock (n : nat) : datetime :=
  sample_instant + Z.min (Z.of_nat n) 1000000 * 1000.

Definition sample_recommendation : Recommendation.t :=
  Recommendation.mk "issue_001" SCALE_UP 0.85 (JStr "Reduce error rate by 80%")
    (JStr "Scale payment service from 3 to 6 instances")
    (JStr "Low risk - scaling up is safe") 5
    (JArr [JStr "sufficient_capacity"; JStr "auto_scaling_enabled"]).

Definition sample_issue : Issue.t :=
  Issue.mk "issue_001" (JStr "High error rate in payment service") HIGH (JStr "datadog")
    sample_instant (JInt 45) ["payment-service"] (JObj []).

(** The configuration of [main]. *)
Definition sample_engine : DecisionEngine :=
  DecisionEngine_init (Some 0.8%float) (Some 5) (Some false)
    (Some ["payment-service"; "user-auth"; "core-api"]).

(** The default configuration: no critical service. *)
Definition plain_engine : DecisionEngine := DecisionEngine_init None None None None.

Definition blank_decision : Decision.t :=
  Decision.mk "" "" sample_recommendation ESCALATE_HUMAN 0 "" 0 false 0.

(** A fresh engine state. *)
Definition sample_world : World :=
  {| wall_clock := steady_clock;
     ticks := 0%nat;
     store := fun _ => blank_decision;
     next_ref := 0%nat;
     recent_decisions := [] |}.

Definition sample_issues : gmap string Issue.t := {[ "issue_001" := sample_issue ]}.

(** A recommendation for an issue nobody reported. *)
Definition orphan_recommendation : Recommendation.t :=
  Recommendation.mk "issue_404" RESTART_SERVICE 0.99 (JStr "Unknown") (JStr "")
    (JStr "Medium risk") 30 (JArr []).

(** Six equally eligible recommendations on an issue of medium severity. *)
Definition calm_issue : Issue.t :=
  Issue.mk "issue_002" (JStr "Queue backlog") MEDIUM (JStr "prometheus")
    sample_instant (JInt 3) ["batch-worker"] (JObj []).

Definition calm_issues : gmap string Issue.t := {[ "issue_002" := calm_issue ]}.

Definition eager_recommendation : Recommendation.t :=
  Recommendation.mk "issue_002" SCALE_UP 0.92 (JStr "Drain the backlog")
    (JStr "Add two workers") (JStr "Low risk") 10 (JArr []).

Definition six_recommendations : list Recommendation.t :=
  [eager_recommendation; eager_recommendation; eager_recommendation;
   eager_recommendation; eager_recommendation; eager_recommendation].

(** The engine state after the evaluator has seen the six recommendations,
    and the batch it hands to the arbiter. *)
Definition provisional_world : World :=
  snd (make_decisions plain_engine six_recommendations calm_issues [] sample_world).

Definition provisional_batch : list ref := [0; 1; 2; 3; 4; 5]%nat.


(** The payload of [main], one with a recommendation more, and one whose
    issue has a severity outside the enumeration. *)
Definition sample_issue_json (severity : string) : json :=
  JObj [("id", JStr "issue_001");
        ("description", JStr "High error rate in payment service");
        ("severity", JStr severity);
        ("source", JStr "datadog");
        ("timestamp", JStr "2024-01-15T13:30:00");
        ("error_count", JInt 45);
        ("affected_services", JArr [JStr "payment-service"]);
        ("metadata", JObj [("error_type", JStr "timeout"); ("region", JStr "us-east-1")])].

Definition sample_recommendation_json (issue_id : string) : json :=
  JObj [("issue_id", JStr issue_id);
        ("action_type", JStr "scale_up");
        ("confidence_score", JFloat 0.85);
        ("estimated_impact", JStr "Reduce error rate by 80%");
        ("suggested_fix", JStr "Scale payment service from 3 to 6 instances");
        ("risk_assessment", JStr "Low risk - scaling up is safe");
        ("time_estimate", JInt 5);
        ("prerequisites", JArr [JStr "sufficient_capacity"; JStr "auto_scaling_enabled"])].

Definition sample_payload : json :=
  JObj [("issues", JArr [sample_issue_json "high"]);
        ("recommendations",
         JArr [sample_recommendation_json "issue_001";
               sample_recommendation_json "issue_404"])].

Definition malformed_payload : json :=
  JObj [("issues", JArr [sample_issue_json "urgent"]);
        ("recommendations", JArr [sample_recommendation_json "issue_001"])].

(** Stand-ins for the two parsers on the sample inputs. *)
Definition sample_json_loads (s : string) : Res json :=
  if String.eqb s "sample" then inr sample_payload
  else if String.eqb s "malformed" then inr malformed_payload
  else inl JSONDecodeError.

Definition sample_fromisoformat (s : string) : Res datetime :=
  if String.eqb s "2024-01-15T13:30:00" then inr sample_instant else inl ValueError.

(** ** Further vocabulary *)

(** Whether one of the issue's services is configured as critical. *)
Definition critical_services_affected (self : DecisionEngine) (issue : Issue.t) : bool :=
  existsb (fun service => str_in service (critical_services self))
          (Issue.affected_services issue).

Definition with_confidence (c : float) (r : Recommendation.t) : Recommendation.t :=
  Recommendation.mk (Recommendation.issue_id r) (Recommendation.action_type r)
    c (Recommendation.estimated_impact r)
    (Recommendation.suggested_fix r) (Recommendation.risk_assessment r)
    (Recommendation.time_estimate r) (Recommendation.prerequisites r).

(** How far an outcome goes towards autonomous action. *)
Definition autonomy (o : DecisionOutcome) : nat :=
  match o with
  | AUTO_RESOLVE => 2
  | SCHEDULE_MAINTENANCE => 1
  | ESCALATE_HUMAN => 0
  | MONITOR_ONLY => 0
  end.

(** From [w] to [w'] the clock and the history stay, and the objects that
    exist in [w] are in [w'] as they were. *)
Definition extends (w w' : World) : Prop :=
  wall_clock w' = wall_clock w
  /\ recent_decisions w' = recent_decisions w
  /\ (next_ref w <= next_ref w')%nat
  /\ forall x, (x < next_ref w)%nat -> store w' x = store w x.

(** Computations that only create objects and read the clock. *)
Definition grows {A} (m : M A) : Prop :=
  forall w res w', m w = (res, w') -> extends w w'.

(** A time estimate of [m] minutes that is no valid [timedelta], or that leads
    out of the range of [datetime] from every clock reading. *)
Definition estimate_out_of_range (w : World) (m : Z) : Prop :=
  ~ (- 999999999 * US_PER_DAY <= m * US_PER_MINUTE < 1000000000 * US_PER_DAY)
  \/ forall n, ~ (0 <= wall_clock w n + m * US_PER_MINUTE < DATETIME_END).

(** A fresh engine state whose clock stands still. *)
Definition frozen_world : World :=
  {| wall_clock := fun _ => sample_instant;
     ticks := 0%nat;
     store := fun _ => blank_decision;
     next_ref := 0%nat;
     recent_decisions := [] |}.

(** A recommendation whose completion time no calendar holds. *)
Definition endless_recommendation : Recommendation.t :=
  Recommendation.mk "issue_002" SCALE_UP 0.92 (JStr "Drain the backlog")
    (JStr "Add two workers") (JStr "Low risk") 10000000000 (JArr []).



(** Records that cannot be parsed: anything but an object, and an object
    whose severity, or action type, is no value of the enumeration. *)
Definition bad_issue_record (v : json) : Prop :=
  match v with
  | JObj fields =>
      exists sv, assoc "severity" fields = Some sv /\ Severity_of sv = inl ValueError
  | _ => True
  end.

Definition bad_recommendation_record (v : json) : Prop :=
  match v with
  | JObj fields =>
      exists av, assoc "action_type" fields = Some av /\ ActionType_of av = inl ValueError
  | _ => True
  end.

(** An analysis object that only says who produced it. *)
Definition bare_analysis : json := JObj [("generated_by", JStr "kestra")].

Definition bare_json_loads (s : string) : Res json := inr bare_analysis.


(** ** More sample data *)

Definition critical_issue : Issue.t :=
  Issue.mk "issue_003" (JStr "Database unreachable") CRITICAL (JStr "pagerduty")
    sample_instant (JInt 120) ["orders-db"] (JObj []).

Definition confident_recommendation : Recommendation.t :=
  Recommendation.mk "issue_003" RESTART_SERVICE 0.97 (JStr "Restore the connection pool")
    (JStr "Restart the proxy") (JStr "Low risk") 3 (JArr []).


(** An engine that may not deploy on its own. *)
Definition paused_engine : DecisionEngine := DecisionEngine_init None (Some 0) None None.






(** ** Proof automation *)

(** Linear arithmetic over the time constants. *)
Ltac time_lia :=
  unfold DATETIME_END, US_PER_DAY, US_PER_HOUR, US_PER_MINUTE, US_PER_SECOND in *; lia.

Create HintDb reads.

(** * Properties *)

(** ** The gates *)

(** C8: the technical-feasibility gate passes exactly for a risky action
    (rollback, code fix) with confidence at least 0.9 or for a safe action
    (scale up, configuration change, restart service); scale down and manual
    review fail whatever the confidence; the prerequisites play no part. *)
Theorem technical_feasibility_gate (r : Recommendation.t) :
  (_evaluate_technical_feasibility r = true <->
     (Recommendation.action_type r ∈ [ROLLBACK; CODE_FIX]
      /\ fge (Recommendation.confidence_score r) 0.9 = true)
     \/ Recommendation.action_type r ∈ [SCALE_UP; CONFIGURATION_CHANGE; RESTART_SERVICE])
  /\ (Recommendation.action_type r ∈ [SCALE_DOWN; MANUAL_REVIEW] ->
      _evaluate_technical_feasibility r = false)
  /\ (forall p, _evaluate_technical_feasibility (with_prerequisites p r)
                = _evaluate_technical_feasibility r).
Proof.
  unfold _evaluate_technical_feasibility.
  destruct r as [iid a c ei sf ra te pre]; simpl.
  split; [| split].
  - destruct a; simpl; split; intros H;
      repeat match goal with
             | H : _ \/ _ |- _ => destruct H
             | H : _ /\ _ |- _ => destruct H
             | H : _ ∈ _ |- _ => apply list_elem_of_In in H; simpl in H
             end;
      try discriminate; try contradiction; try assumption; try reflexivity;
      try (left; split; [set_solver | assumption]);
      try (right; set_solver).
  - intros H. apply list_elem_of_In in H. simpl in H.
    destruct H as [<- | [<- | []]]; reflexivity.
  - reflexivity.
Qed.

(** ** The evaluator *)

(** The business-impact gate never raises and leaves the objects alone. *)
Lemma business_impact_runs self issue r w :
  exists b k w1,
    _evaluate_business_impact self issue r w = (inr b, w1)
    /\ same_objects w w1 /\ ticks w1 = (ticks w + k)%nat.
Proof.
  unfold _evaluate_business_impact, same_objects.
  destruct (existsb _ _).
  - eexists _, 0%nat, w. split; [reflexivity | split; [tauto | lia]].
  - destruct (business_hours_only self).
    + unfold bind, now.
      destruct (negb _ && _); eexists _, 1%nat, _;
        (split; [reflexivity | split; [simpl; tauto | simpl; lia]]).
    + eexists _, 0%nat, w. split; [reflexivity | split; [tauto | lia]].
Qed.

Lemma timedelta_ok us :
  - 999999999 * US_PER_DAY <= us < 1000000000 * US_PER_DAY -> timedelta us = inr us.
Proof.
  intros [H1 H2]. unfold timedelta.
  apply Z.leb_le in H1. apply Z.ltb_lt in H2. now rewrite H1, H2.
Qed.

Lemma datetime_add_ok t d :
  0 <= t + d < DATETIME_END -> datetime_add t d = inr (t + d).
Proof.
  intros [H1 H2]. unfold datetime_add.
  apply Z.leb_le in H1. apply Z.ltb_lt in H2. now rewrite H1, H2.
Qed.

Lemma timedelta_inv us d : timedelta us = inr d -> d = us.
Proof. unfold timedelta. destruct (_ && _); congruence. Qed.

Lemma datetime_add_inv t d t' : datetime_add t d = inr t' -> t' = t + d.
Proof. unfold datetime_add. destruct (_ && _); congruence. Qed.

Lemma all_of_four (a b c d : bool) :
  forallb (fun x : bool => x) [a; b; c; d] = a && b && c && d.
Proof. now destruct a, b, c, d. Qed.

Lemma make_decision_found_inv self r issues issue w x w' :
  issues !! Recommendation.issue_id r = Some issue ->
  _make_decision self r issues w = (inr x, w') ->
  exists k,
    x = next_ref w /\ next_ref w' = S (next_ref w)
    /\ wall_clock w' = wall_clock w /\ recent_decisions w' = recent_decisions w
    /\ store w' = update (store w) (next_ref w)
                    (provisional self r issue w
                       (wall_clock w (ticks w + k)%nat)
                       (wall_clock w (ticks w + k + 1)%nat)
                       (wall_clock w (ticks w + k + 2)%nat)).
Proof.
  intros Hfound Hrun. unfold _make_decision in Hrun. rewrite Hfound in Hrun.
  unfold provisional, all_gates_pass, business_impact_passes.
  destruct (business_impact_runs self issue r w) as (b & k & w1 & Hb & Hw1 & Hk).
  unfold bind at 1 in Hrun. rewrite Hb in Hrun |- *. simpl fst.
  destruct Hw1 as (Hclk & Hst & Hnext & Hrec).
  rewrite all_of_four in Hrun.
  destruct (disposition _ r issue) as [[o a] rs].
  unfold bind, now, lift, new_decision in Hrun. simpl in Hrun.
  destruct (timedelta _) as [e | d] eqn:Hd; [discriminate |].
  apply timedelta_inv in Hd. subst d.
  destruct (datetime_add _ _) as [e | c] eqn:Hc; [discriminate |].
  apply datetime_add_inv in Hc. subst c.
  injection Hrun as <- <-. simpl.
  exists k. rewrite Hclk, Hst, Hnext, Hrec, Hk.
  replace (ticks w + k + 1)%nat with (S (ticks w + k)) by lia.
  replace (ticks w + k + 2)%nat with (S (S (ticks w + k))) by lia.
  repeat split; reflexivity.
Qed.

Lemma make_decision_found_runs self r issues issue w :
  issues !! Recommendation.issue_id r = Some issue ->
  estimate_fits w (Recommendation.time_estimate r) ->
  exists x w', _make_decision self r issues w = (inr x, w').
Proof.
  intros Hfound [Hdelta Hclock]. unfold _make_decision. rewrite Hfound.
  destruct (business_impact_runs self issue r w) as (b & k & w1 & Hb & Hw1 & Hk).
  destruct Hw1 as (Hclk & _).
  unfold bind at 1. rewrite Hb.
  destruct (disposition _ r issue) as [[o a] rs].
  unfold bind, now, lift, new_decision. simpl.
  rewrite (timedelta_ok _ Hdelta), Hclk, (datetime_add_ok _ _ (Hclock _)).
  eexists _, _. reflexivity.
Qed.

Lemma update_same s x d : update s x d x = d.
Proof. unfold update. now rewrite Nat.eqb_refl. Qed.

Lemma update_other s x d y : y <> x -> update s x d y = s y.
Proof. unfold update. intros H. apply Nat.eqb_neq in H. now rewrite H. Qed.

(** C1: for a recommendation whose issue is in the issue map, the decision
    the evaluator returns is auto-resolve and auto-approved when the four
    gates pass; otherwise schedule-maintenance, not auto-approved, when the
    confidence is at least 0.6 and the severity is not critical; otherwise
    escalate-human, not auto-approved.  A critical issue that fails a gate is
    therefore escalated.  The evaluator does return a decision whenever the
    time estimate leads to a representable completion time. *)
Theorem disposition_by_first_match self r issues issue w :
  issues !! Recommendation.issue_id r = Some issue ->
  (forall x w', _make_decision self r issues w = (inr x, w') ->
     let d := store w' x in
     (all_gates_pass self issue r w = true ->
        Decision.outcome d = AUTO_RESOLVE /\ Decision.auto_approved d = true)
     /\ (all_gates_pass self issue r w = false ->
         fge (Recommendation.confidence_score r) 0.6 = true ->
         Issue.severity issue <> CRITICAL ->
         Decision.outcome d = SCHEDULE_MAINTENANCE /\ Decision.auto_approved d = false)
     /\ (all_gates_pass self issue r w = false ->
         fge (Recommendation.confidence_score r) 0.6 = false
         \/ Issue.severity issue = CRITICAL ->
         Decision.outcome d = ESCALATE_HUMAN /\ Decision.auto_approved d = false))
  /\ (estimate_fits w (Recommendation.time_estimate r) ->
      exists x w', _make_decision self r issues w = (inr x, w')).
Proof.
  intros Hfound. split; [| intros Hfit; eapply make_decision_found_runs; eassumption].
  intros x w' Hrun d. subst d.
  destruct (make_decision_found_inv _ _ _ _ _ _ _ Hfound Hrun)
    as (k & -> & _ & _ & _ & ->).
  rewrite update_same. unfold provisional, disposition.
  destruct (all_gates_pass self issue r w).
  - simpl. repeat split; intros; discriminate.
  - destruct (fge _ 0.6) eqn:Hconf; simpl.
    + destruct (bool_decide _) eqn:Hsev; simpl.
      * apply bool_decide_eq_true in Hsev.
        repeat split; intros; try discriminate; try contradiction; reflexivity.
      * apply bool_decide_eq_false in Hsev.
        repeat split; intros; try discriminate; try reflexivity;
          match goal with H : _ \/ _ |- _ => destruct H; [discriminate | contradiction] end.
    + repeat split; intros; try discriminate; reflexivity.
Qed.

Lemma clock_sane_escalation w n :
  clock_sane w -> 0 <= wall_clock w n + 2 * US_PER_HOUR < DATETIME_END.
Proof.
  intros H. destruct (H n) as [H1 H2]. time_lia.
Qed.

Lemma create_escalation_decision_runs r reason w :
  clock_sane w ->
  _create_escalation_decision r reason w
  = (inr (next_ref w),
     set_next_ref (S (next_ref w))
       (set_store
          (update (store w) (next_ref w)
             (Decision.mk ("escalation_" +:+ strftime_compact (wall_clock w (ticks w)))
                (Recommendation.issue_id r) r ESCALATE_HUMAN 0%float reason
                (wall_clock w (S (ticks w))) false
                (wall_clock w (S (S (ticks w))) + 2 * US_PER_HOUR)))
          (set_ticks (S (S (S (ticks w)))) w))).
Proof.
  intros Hclock. unfold _create_escalation_decision, bind, now, lift, new_decision.
  rewrite timedelta_ok by time_lia.
  cbn [wall_clock ticks set_ticks].
  rewrite (datetime_add_ok _ _ (clock_sane_escalation w _ Hclock)).
  reflexivity.
Qed.

(** C3: for a recommendation whose issue id is not a key of the issue map the
    evaluator raises nothing and returns a decision with outcome
    escalate-human, confidence 0.0, not auto-approved, and an estimated
    completion two hours after the time read for it. *)
Theorem missing_issue_escalates self r issues w :
  issues !! Recommendation.issue_id r = None ->
  clock_sane w ->
  exists x w',
    _make_decision self r issues w = (inr x, w')
    /\ Decision.outcome (store w' x) = ESCALATE_HUMAN
    /\ Decision.confidence (store w' x) = 0%float
    /\ Decision.auto_approved (store w' x) = false
    /\ Decision.estimated_completion (store w' x)
       = wall_clock w (ticks w + 2)%nat + 2 * US_PER_HOUR.
Proof.
  intros Hmissing Hclock. unfold _make_decision. rewrite Hmissing.
  rewrite create_escalation_decision_runs by assumption.
  eexists _, _. split; [reflexivity |]. simpl. rewrite update_same. simpl.
  replace (ticks w + 2)%nat with (S (S (ticks w))) by lia.
  repeat split; reflexivity.
Qed.

(** ** The arbiter *)

Lemma downgrade_not_auto d : is_auto_resolve (downgrade d) = false.
Proof. unfold is_auto_resolve, downgrade. reflexivity. Qed.

(** The loop appends the batch, in order, to both lists. *)
Lemma rate_limit_loop_lists cap recent decisions :
  forall s added filtered history,
    snd (fst (rate_limit_loop cap recent decisions s added filtered history))
    = filtered ++ decisions
    /\ snd (rate_limit_loop cap recent decisions s added filtered history)
       = history ++ decisions.
Proof.
  induction decisions as [| x rest IH]; intros s added filtered history; simpl.
  - now rewrite !app_nil_r.
  - destruct (is_auto_resolve (s x)); [destruct (cap <=? recent + added) |];
      match goal with
      | |- context [rate_limit_loop _ _ _ ?s' ?a' ?f' ?h'] =>
          destruct (IH s' a' f' h') as [-> ->]
      end;
      now rewrite <- !app_assoc.
Qed.

(** An object is either left as it was or, when it was an auto-approved
    auto-resolve decision of the batch, downgraded once. *)
Lemma rate_limit_loop_frame cap recent decisions :
  forall s added filtered history x,
    let s' := fst (fst (rate_limit_loop cap recent decisions s added filtered history)) in
    s' x = s x
    \/ (is_auto_resolve (s x) = true /\ x ∈ decisions /\ s' x = downgrade (s x)).
Proof.
  induction decisions as [| y rest IH]; intros s added filtered history x; simpl.
  - now left.
  - destruct (is_auto_resolve (s y)) eqn:Hauto;
      [destruct (cap <=? recent + added) |].
    + specialize (IH (update s y (downgrade (s y))) added
                     (filtered ++ [y]) (history ++ [y]) x).
      simpl in IH. destruct (decide (x = y)) as [-> | Hne].
      * rewrite update_same, downgrade_not_auto in IH.
        destruct IH as [IH | (Habs & _)]; [| discriminate].
        right. repeat split; [assumption | set_solver | assumption].
      * rewrite update_other in IH by assumption.
        destruct IH as [IH | (H1 & H2 & H3)]; [now left |].
        right. repeat split; [assumption | set_solver | assumption].
    + destruct (IH s (added + 1) (filtered ++ [y]) (history ++ [y]) x)
        as [H | (H1 & H2 & H3)]; [now left |].
      right. repeat split; [assumption | set_solver | assumption].
    + destruct (IH s added (filtered ++ [y]) (history ++ [y]) x)
        as [H | (H1 & H2 & H3)]; [now left |].
      right. repeat split; [assumption | set_solver | assumption].
Qed.

(** While the budget lasts nothing is written. *)
Lemma rate_limit_loop_within_budget cap recent decisions :
  forall s added filtered history,
    recent + added
      + Z.of_nat (length (List.filter (fun x => is_auto_resolve (s x)) decisions)) <= cap ->
    fst (fst (rate_limit_loop cap recent decisions s added filtered history)) = s.
Proof.
  induction decisions as [| y rest IH]; intros s added filtered history Hcap; simpl in *.
  - reflexivity.
  - destruct (is_auto_resolve (s y)) eqn:Hauto; simpl in Hcap.
    + destruct (cap <=? recent + added) eqn:Hfull.
      * apply Z.leb_le in Hfull. lia.
      * apply IH. lia.
    + now apply IH.
Qed.

Lemma filter_auto_update s y d rest :
  y ∉ rest ->
  List.filter (fun x => is_auto_resolve (update s y d x)) rest
  = List.filter (fun x => is_auto_resolve (s x)) rest.
Proof.
  intros Hnotin. apply filter_ext_in. intros x Hx.
  rewrite update_other; [reflexivity |].
  intros ->. apply Hnotin. now apply list_elem_of_In.
Qed.

(** On a batch of distinct objects, the auto-approved auto-resolve decisions
    past the remaining budget are the ones downgraded. *)
Lemma rate_limit_loop_spec cap recent decisions :
  forall s added filtered history x,
    NoDup decisions ->
    let autos := List.filter (fun y => is_auto_resolve (s y)) decisions in
    let k := Z.to_nat (cap - recent - added) in
    fst (fst (rate_limit_loop cap recent decisions s added filtered history)) x
    = if bool_decide (x ∈ drop k autos) then downgrade (s x) else s x.
Proof.
  induction decisions as [| y rest IH]; intros s added filtered history x Hnodup; simpl.
  - rewrite drop_nil. now rewrite bool_decide_eq_false_2 by apply not_elem_of_nil.
  - apply NoDup_cons in Hnodup as [Hy Hrest].
    destruct (is_auto_resolve (s y)) eqn:Hauto.
    + destruct (cap <=? recent + added) eqn:Hfull.
      * apply Z.leb_le in Hfull.
        replace (Z.to_nat (cap - recent - added)) with 0%nat by lia.
        rewrite (IH _ _ _ _ x Hrest). simpl.
        replace (Z.to_nat (cap - recent - added)) with 0%nat by lia.
        rewrite !drop_0, filter_auto_update by assumption.
        destruct (decide (x = y)) as [-> | Hne].
        -- rewrite update_same.
           rewrite bool_decide_eq_false_2.
           2:{ intros Hin. apply Hy. apply list_elem_of_In in Hin.
               apply filter_In in Hin as [Hin _]. now apply list_elem_of_In. }
           rewrite bool_decide_eq_true_2 by set_solver. reflexivity.
        -- rewrite update_other by assumption.
           destruct (bool_decide (x ∈ List.filter _ rest)) eqn:Hx.
           ++ apply bool_decide_eq_true in Hx.
              rewrite bool_decide_eq_true_2 by set_solver. reflexivity.
           ++ apply bool_decide_eq_false in Hx.
              rewrite bool_decide_eq_false_2; [reflexivity |].
              intros Hin. apply elem_of_cons in Hin as [Heq | Hin]; contradiction.
      * apply Z.leb_gt in Hfull.
        rewrite (IH _ _ _ _ x Hrest). simpl.
        replace (Z.to_nat (cap - recent - added))
          with (S (Z.to_nat (cap - recent - (added + 1)))) by lia.
        reflexivity.
    + apply (IH _ _ _ _ x Hrest).
Qed.

(** The arbiter on a sane clock, step by step. *)
Lemma apply_business_rules_runs self decisions w :
  clock_sane w ->
  _apply_business_rules self decisions w
  = (let cutoff_time := wall_clock w (ticks w) - US_PER_HOUR in
     let kept := prune (store w) cutoff_time (recent_decisions w) in
     let recent_auto_approvals := count_auto_approvals (store w) kept in
     let '(s, filtered_decisions, history) :=
       rate_limit_loop (max_auto_deployments_per_hour self) recent_auto_approvals
                       decisions (store w) 0 [] kept in
     (inr filtered_decisions,
      set_recent_decisions history (set_store s (set_ticks (S (ticks w)) w)))).
Proof.
  intros Hclock. unfold _apply_business_rules, bind, now, lift.
  rewrite timedelta_ok by time_lia.
  rewrite datetime_add_ok.
  2:{ destruct (Hclock (ticks w)) as [H1 H2]. time_lia. }
  cbn [wall_clock ticks store recent_decisions set_ticks].
  replace (wall_clock w (ticks w) + - US_PER_HOUR)
    with (wall_clock w (ticks w) - US_PER_HOUR) by lia.
  reflexivity.
Qed.

(** The arbiter returns its batch and writes the store of the loop. *)
Lemma apply_business_rules_result self decisions w :
  clock_sane w ->
  exists w',
    _apply_business_rules self decisions w = (inr decisions, w')
    /\ store w'
       = fst (fst (rate_limit_loop (max_auto_deployments_per_hour self)
                     (count_auto_approvals (store w)
                        (prune (store w) (wall_clock w (ticks w) - US_PER_HOUR)
                           (recent_decisions w)))
                     decisions (store w) 0 []
                     (prune (store w) (wall_clock w (ticks w) - US_PER_HOUR)
                        (recent_decisions w))))
    /\ recent_decisions w'
       = prune (store w) (wall_clock w (ticks w) - US_PER_HOUR) (recent_decisions w)
         ++ decisions
    /\ wall_clock w' = wall_clock w /\ next_ref w' = next_ref w.
Proof.
  intros Hclock. rewrite apply_business_rules_runs by assumption. cbv zeta.
  pose proof (rate_limit_loop_lists (max_auto_deployments_per_hour self)
    (count_auto_approvals (store w)
       (prune (store w) (wall_clock w (ticks w) - US_PER_HOUR) (recent_decisions w)))
    decisions (store w) 0 []
    (prune (store w) (wall_clock w (ticks w) - US_PER_HOUR) (recent_decisions w)))
    as [Hf Hh].
  destruct (rate_limit_loop _ _ _ _ _ _ _) as [[s f] h]. simpl in *. subst f h.
  eexists. repeat split; reflexivity.
Qed.

Lemma downgrade_fields d :
  Decision.id (downgrade d) = Decision.id d
  /\ Decision.issue_id (downgrade d) = Decision.issue_id d
  /\ Decision.recommendation (downgrade d) = Decision.recommendation d
  /\ Decision.confidence (downgrade d) = Decision.confidence d
  /\ Decision.timestamp (downgrade d) = Decision.timestamp d
  /\ Decision.estimated_completion (downgrade d) = Decision.estimated_completion d.
Proof. repeat split. Qed.

(** C2: with no recent auto-approval in the pruned history, a batch of
    distinct decisions of which N are auto-approved auto-resolve, and a cap K
    below N, the arbiter returns the batch as it came; the first K of those N,
    in batch order, keep outcome auto-resolve and stay auto-approved; the
    other N - K get outcome schedule-maintenance, lose the approval and get
    the rate-limit note appended to their reasoning. *)
Theorem rate_limit_first_come self batch w :
  clock_sane w ->
  NoDup batch ->
  count_auto_approvals (store w)
    (prune (store w) (wall_clock w (ticks w) - US_PER_HOUR) (recent_decisions w)) = 0 ->
  max_auto_deployments_per_hour self
    < Z.of_nat (length (List.filter (fun x => is_auto_resolve (store w x)) batch)) ->
  let autos := List.filter (fun x => is_auto_resolve (store w x)) batch in
  let K := Z.to_nat (max_auto_deployments_per_hour self) in
  exists w',
    _apply_business_rules self batch w = (inr batch, w')
    /\ length (take K autos) = K
    /\ length (drop K autos) = (length autos - K)%nat
    /\ (forall x, x ∈ take K autos ->
          Decision.outcome (store w' x) = AUTO_RESOLVE
          /\ Decision.auto_approved (store w' x) = true)
    /\ (forall x, x ∈ drop K autos ->
          Decision.outcome (store w' x) = SCHEDULE_MAINTENANCE
          /\ Decision.auto_approved (store w' x) = false
          /\ Decision.reasoning (store w' x)
             = Decision.reasoning (store w x) +:+ RATE_LIMIT_NOTE).
Proof.
  intros Hclock Hnodup Hrecent HK autos K.
  destruct (apply_business_rules_result self batch w Hclock)
    as (w' & Hrun & Hstore & _).
  exists w'. split; [exact Hrun |].
  rewrite Hrecent in Hstore.
  assert (Hspec : forall x, store w' x
            = if bool_decide (x ∈ drop K autos) then downgrade (store w x) else store w x).
  { intros x. rewrite Hstore.
    rewrite (rate_limit_loop_spec _ _ _ _ _ _ _ x Hnodup). cbv zeta.
    replace (max_auto_deployments_per_hour self - 0 - 0)
      with (max_auto_deployments_per_hour self) by lia.
    reflexivity. }
  assert (Hautos_nodup : NoDup autos).
  { apply NoDup_ListNoDup. apply List.NoDup_filter. now apply NoDup_ListNoDup. }
  split; [| split; [| split]].
  - rewrite length_take. subst K autos. lia.
  - now rewrite length_drop.
  - intros x Hx. rewrite Hspec.
    rewrite bool_decide_eq_false_2.
    + assert (Hin : x ∈ autos) by (eapply subseteq_take; eassumption).
      apply list_elem_of_In, filter_In in Hin as [_ Hauto].
      unfold is_auto_resolve in Hauto. apply andb_true_iff in Hauto as [Ha Ho].
      apply bool_decide_eq_true in Ho. now split.
    + intros Hdrop. rewrite <- (take_drop K autos) in Hautos_nodup.
      apply NoDup_app in Hautos_nodup as (_ & Hdisj & _). now apply (Hdisj x).
  - intros x Hx. rewrite Hspec, bool_decide_eq_true_2 by assumption.
    repeat split.
Qed.

(** C5: the arbiter returns the list it was given (same length, same order);
    every decision keeps its id, issue id, recommendation, confidence,
    timestamp and estimated completion; a decision is either untouched in all
    fields or, being an auto-approved auto-resolve decision of the batch, has
    its outcome, approval and reasoning rewritten by the rate limit; and with
    enough budget left for the whole batch nothing is rewritten. *)
Theorem arbiter_frame self batch w :
  clock_sane w ->
  exists w',
    _apply_business_rules self batch w = (inr batch, w')
    /\ (forall x,
          Decision.id (store w' x) = Decision.id (store w x)
          /\ Decision.issue_id (store w' x) = Decision.issue_id (store w x)
          /\ Decision.recommendation (store w' x) = Decision.recommendation (store w x)
          /\ Decision.confidence (store w' x) = Decision.confidence (store w x)
          /\ Decision.timestamp (store w' x) = Decision.timestamp (store w x)
          /\ Decision.estimated_completion (store w' x)
             = Decision.estimated_completion (store w x))
    /\ (forall x,
          store w' x = store w x
          \/ (x ∈ batch /\ is_auto_resolve (store w x) = true
              /\ Decision.outcome (store w' x) = SCHEDULE_MAINTENANCE
              /\ Decision.auto_approved (store w' x) = false
              /\ Decision.reasoning (store w' x)
                 = Decision.reasoning (store w x) +:+ RATE_LIMIT_NOTE))
    /\ (count_auto_approvals (store w)
          (prune (store w) (wall_clock w (ticks w) - US_PER_HOUR) (recent_decisions w))
        + Z.of_nat (length (List.filter (fun x => is_auto_resolve (store w x)) batch))
        <= max_auto_deployments_per_hour self ->
        store w' = store w).
Proof.
  intros Hclock.
  destruct (apply_business_rules_result self batch w Hclock)
    as (w' & Hrun & Hstore & _).
  exists w'. split; [exact Hrun |].
  assert (Hframe : forall x, store w' x = store w x
            \/ (is_auto_resolve (store w x) = true /\ x ∈ batch
                /\ store w' x = downgrade (store w x))).
  { intros x. rewrite Hstore. apply rate_limit_loop_frame. }
  split; [| split].
  - intros x. destruct (Hframe x) as [-> | (_ & _ & ->)].
    + repeat split.
    + apply downgrade_fields.
  - intros x. destruct (Hframe x) as [-> | (Hauto & Hin & ->)].
    + now left.
    + right. repeat split; assumption.
  - intros Hbudget. rewrite Hstore.
    apply rate_limit_loop_within_budget. lia.
Qed.



Lemma count_auto_approvals_app s h1 h2 :
  count_auto_approvals s (h1 ++ h2) = count_auto_approvals s h1 + count_auto_approvals s h2.
Proof.
  unfold count_auto_approvals. rewrite List.filter_app, length_app. lia.
Qed.




(** ** The facade *)

Lemma same_objects_refl w : same_objects w w.
Proof. unfold same_objects. tauto. Qed.


Lemma reads_only_ret {A} (a : A) : reads_only (ret a).
Proof. intros w r w1 H. injection H as _ <-. apply same_objects_refl. Qed.

Lemma reads_only_lift {A} (x : Res A) : reads_only (lift x).
Proof. intros w r w1 H. injection H as _ <-. apply same_objects_refl. Qed.

Lemma reads_only_now : reads_only now.
Proof. intros w r w1 H. injection H as _ <-. unfold same_objects. simpl. tauto. Qed.


#[local] Hint Resolve reads_only_ret reads_only_lift reads_only_now : reads.



Lemma settled_provisional self r issue w t1 t2 t3 :
  settled (provisional self r issue w t1 t2 t3).
Proof.
  unfold provisional, disposition, settled.
  destruct (all_gates_pass self issue r w); [| destruct (_ && _)]; simpl;
    (split; [split |]); congruence.
Qed.


Lemma create_escalation_decision_inv r reason w x w' :
  _create_escalation_decision r reason w = (inr x, w') ->
  x = next_ref w /\ next_ref w' = S (next_ref w)
  /\ exists d, store w' = update (store w) (next_ref w) d
               /\ Decision.outcome d = ESCALATE_HUMAN
               /\ Decision.auto_approved d = false.
Proof.
  unfold _create_escalation_decision, bind, now, lift, new_decision.
  destruct (timedelta _) as [e | d]; [discriminate |].
  cbn [wall_clock ticks set_ticks].
  destruct (datetime_add _ _) as [e | c]; [discriminate |].
  intros H. injection H as <- <-. simpl.
  repeat split. eexists. repeat split.
Qed.

(** Every decision the evaluator returns is a fresh, settled object. *)
Lemma make_decision_post self r issues w x w' :
  _make_decision self r issues w = (inr x, w') ->
  x = next_ref w /\ next_ref w' = S (next_ref w)
  /\ exists d, store w' = update (store w) (next_ref w) d /\ settled d.
Proof.
  intros Hrun.
  destruct (issues !! Recommendation.issue_id r) as [issue |] eqn:Hlook.
  - destruct (make_decision_found_inv _ _ _ _ _ _ _ Hlook Hrun)
      as (k & Hx & Hnext & _ & _ & Hstore).
    repeat split; try assumption.
    eexists. split; [exact Hstore | apply settled_provisional].
  - unfold _make_decision in Hrun. rewrite Hlook in Hrun.
    apply create_escalation_decision_inv in Hrun
      as (Hx & Hnext & d & Hstore & Ho & Ha).
    repeat split; try assumption.
    exists d. split; [exact Hstore |].
    unfold settled. rewrite Ho, Ha. split; [split |]; congruence.
Qed.







(** C7: whenever [json.loads] rejects the input, and whenever any later step
    of the processing raises, the facade returns the empty list: no exception
    leaves it. *)
Theorem payload_errors_give_empty_list json_loads fromisoformat self ai_response w :
  (forall e, json_loads ai_response = inl e ->
     fst (process_ai_analysis json_loads fromisoformat self ai_response w) = [])
  /\ (forall e,
        fst (process_ai_analysis_try json_loads fromisoformat self ai_response w) = inl e ->
        fst (process_ai_analysis json_loads fromisoformat self ai_response w) = []).
Proof.
  assert (Hraise : forall e,
            fst (process_ai_analysis_try json_loads fromisoformat self ai_response w) = inl e ->
            fst (process_ai_analysis json_loads fromisoformat self ai_response w) = []).
  { intros e He. unfold process_ai_analysis.
    destruct (process_ai_analysis_try _ _ _ _ _) as [[e' | l] w']; simpl in *.
    - now destruct e'.
    - discriminate. }
  split; [| exact Hraise].
  intros e He. apply (Hraise e).
  unfold process_ai_analysis_try, bind, lift. now rewrite He.
Qed.


(** ** The summary *)







(** ** The sample clock *)

Lemma steady_clock_sane n :
  US_PER_HOUR <= steady_clock n /\ steady_clock n + 2 * US_PER_HOUR < DATETIME_END.
Proof.
  unfold steady_clock, sample_instant. time_lia.
Qed.

Lemma sample_world_sane : clock_sane sample_world.
Proof. intros n. apply steady_clock_sane. Qed.

Lemma provisional_world_sane : clock_sane provisional_world.
Proof.
  intros n. change (wall_clock provisional_world n) with (steady_clock n).
  apply steady_clock_sane.
Qed.

Lemma sample_estimate_fits : estimate_fits sample_world 5.
Proof.
  split.
  - time_lia.
  - intros n. simpl. pose proof (steady_clock_sane n). time_lia.
Qed.

(** The sample run of the source: a high-severity issue on a critical
    service, scale-up at confidence 0.85, is scheduled. *)
Lemma disposition_by_first_match_witness :
  exists x w',
    _make_decision sample_engine sample_recommendation sample_issues sample_world = (inr x, w')
    /\ Decision.outcome (store w' x) = SCHEDULE_MAINTENANCE
    /\ Decision.auto_approved (store w' x) = false.
Proof.
  destruct (disposition_by_first_match sample_engine sample_recommendation sample_issues
              sample_issue sample_world eq_refl) as [Hcases Hruns].
  destruct (Hruns sample_estimate_fits) as (x & w' & Hrun).
  exists x, w'. split; [exact Hrun |].
  apply (Hcases x w' Hrun).
  - vm_compute. reflexivity.
  - vm_compute. reflexivity.
  - simpl. discriminate.
Defined.

(** A recommendation for an unknown issue, in the fresh sample world. *)
Lemma missing_issue_escalates_witness :
  exists x w',
    _make_decision sample_engine orphan_recommendation sample_issues sample_world = (inr x, w')
    /\ Decision.outcome (store w' x) = ESCALATE_HUMAN
    /\ Decision.confidence (store w' x) = 0%float
    /\ Decision.auto_approved (store w' x) = false
    /\ Decision.estimated_completion (store w' x)
       = wall_clock sample_world (ticks sample_world + 2)%nat + 2 * US_PER_HOUR.
Proof.
  apply (missing_issue_escalates sample_engine orphan_recommendation sample_issues sample_world).
  - reflexivity.
  - exact sample_world_sane.
Defined.

(** Six eligible decisions, cap 5, empty history: the sixth is scheduled. *)
Lemma rate_limit_first_come_witness :
  exists w',
    _apply_business_rules plain_engine provisional_batch provisional_world
    = (inr provisional_batch, w')
    /\ (forall x, x ∈ [0; 1; 2; 3; 4]%nat ->
          Decision.outcome (store w' x) = AUTO_RESOLVE
          /\ Decision.auto_approved (store w' x) = true)
    /\ Decision.outcome (store w' 5%nat) = SCHEDULE_MAINTENANCE
    /\ Decision.auto_approved (store w' 5%nat) = false.
Proof.
  destruct (rate_limit_first_come plain_engine provisional_batch provisional_world)
    as (w' & Hrun & _ & _ & Hkeep & Hdown).
  - exact provisional_world_sane.
  - apply (bool_decide_unpack _). vm_compute. exact I.
  - reflexivity.
  - vm_compute. reflexivity.
  - exists w'. split; [exact Hrun |]. split.
    + intros x Hx. apply Hkeep. exact Hx.
    + destruct (Hdown 5%nat) as (Ho & Ha & _).
      * vm_compute. apply list_elem_of_here.
      * split; assumption.
Defined.

Lemma arbiter_frame_witness :
  exists w',
    _apply_business_rules plain_engine provisional_batch provisional_world
    = (inr provisional_batch, w')
    /\ Decision.confidence (store w' 5%nat) = 0.92%float
    /\ Decision.recommendation (store w' 5%nat) = eager_recommendation.
Proof.
  destruct (arbiter_frame plain_engine provisional_batch provisional_world
              provisional_world_sane) as (w' & Hrun & Hfields & _).
  exists w'. split; [exact Hrun |].
  destruct (Hfields 5%nat) as (_ & _ & Hrec & Hconf & _).
  split.
  - rewrite Hconf. reflexivity.
  - rewrite Hrec. reflexivity.
Defined.



(** Input that is no JSON, and a payload with an unknown severity. *)
Lemma payload_errors_give_empty_list_witness :
  fst (process_ai_analysis sample_json_loads sample_fromisoformat
         sample_engine "not json" sample_world) = []
  /\ fst (process_ai_analysis sample_json_loads sample_fromisoformat
            sample_engine "malformed" sample_world) = [].
Proof.
  split.
  - apply (proj1 (payload_errors_give_empty_list sample_json_loads sample_fromisoformat
                    sample_engine "not json" sample_world) JSONDecodeError).
    reflexivity.
  - apply (proj2 (payload_errors_give_empty_list sample_json_loads sample_fromisoformat
                    sample_engine "malformed" sample_world) ValueError).
    vm_compute. reflexivity.
Defined.

(** ** Scenarios of the specification *)

(** High severity, confidence 0.85, scale-up, no critical service, threshold
    0.8: auto-resolve. *)
Example scenario_high_severity_scale_up :
  let issues : gmap string Issue.t :=
    {[ "issue_001" := Issue.mk "issue_001" JNull HIGH JNull sample_instant (JInt 0) [] (JObj []) ]} in
  let run := _make_decision plain_engine sample_recommendation issues sample_world in
  fst run = inr 0%nat
  /\ Decision.outcome (store (snd run) 0%nat) = AUTO_RESOLVE
  /\ Decision.auto_approved (store (snd run) 0%nat) = true.
Proof. vm_compute. repeat split. Qed.

(** Critical severity, confidence 0.90: escalated, not scheduled. *)
Example scenario_critical_below_bound :
  let issues : gmap string Issue.t :=
    {[ "issue_001" := Issue.mk "issue_001" JNull CRITICAL JNull sample_instant (JInt 0) [] (JObj []) ]} in
  let r := Recommendation.mk "issue_001" SCALE_UP 0.9 JNull JNull JNull 5 (JArr []) in
  let run := _make_decision plain_engine r issues sample_world in
  fst run = inr 0%nat
  /\ Decision.outcome (store (snd run) 0%nat) = ESCALATE_HUMAN
  /\ Decision.reasoning (store (snd run) 0%nat)
     = "Failed checks: confidence=0.90, severity=critical".
Proof. vm_compute. repeat split. Qed.

(** Six eligible recommendations, cap 5, empty history. *)
Example scenario_six_in_one_batch :
  let run := _apply_business_rules plain_engine provisional_batch provisional_world in
  fst run = inr provisional_batch
  /\ map (fun x => Decision.outcome (store (snd run) x)) provisional_batch
     = [AUTO_RESOLVE; AUTO_RESOLVE; AUTO_RESOLVE; AUTO_RESOLVE; AUTO_RESOLVE;
        SCHEDULE_MAINTENANCE]
  /\ Decision.reasoning (store (snd run) 5%nat)
     = "All checks passed: confidence=0.92, severity=medium (Rate limited - converted to scheduled maintenance)".
Proof. vm_compute. repeat split. Qed.

(** A time estimate of ten billion minutes has no completion time: the
    evaluator raises, and the facade would return the empty list. *)
Example scenario_estimate_out_of_range :
  let r := Recommendation.mk "issue_002" SCALE_UP 0.92 JNull JNull JNull 10000000000 (JArr []) in
  fst (_make_decision plain_engine r calm_issues sample_world) = inl OverflowError.
Proof. vm_compute. reflexivity. Qed.

(** The same object twice in a batch: the second visit rewrites what the
    first one let through. *)
Example scenario_aliased_batch :
  let engine := DecisionEngine_init None (Some 1) None None in
  let run := _apply_business_rules engine [0; 0]%nat provisional_world in
  fst run = inr [0; 0]%nat
  /\ Decision.outcome (store (snd run) 0%nat) = SCHEDULE_MAINTENANCE.
Proof. vm_compute. repeat split. Qed.

(** * Further properties *)

(** ** The order of floats *)

Lemma SFleb_trans a b c :
  SFleb a b = true -> SFleb b c = true -> SFleb a c = true.
Proof.
  unfold SFleb.
  destruct a as [sa | sa | | sa ma ea], b as [sb | sb | | sb mb eb],
    c as [sc | sc | | sc mc ec]; simpl;
    try discriminate; try reflexivity;
    try (destruct sa; simpl; try discriminate; try reflexivity);
    try (destruct sb; simpl; try discriminate; try reflexivity);
    try (destruct sc; simpl; try discriminate; try reflexivity);
    rewrite ?Pos.compare_cont_spec; simpl;
    destruct (Z.compare_spec ea eb), (Z.compare_spec eb ec), (Z.compare_spec ea ec);
    subst; try lia; simpl; try discriminate; try reflexivity;
    destruct (Pos.compare_spec ma mb), (Pos.compare_spec mb mc), (Pos.compare_spec ma mc);
    subst; try lia; simpl; try discriminate; try reflexivity.
Qed.

(** [a >= b] and [b >= c] give [a >= c]. *)
Lemma fge_trans a b c : fge a b = true -> fge b c = true -> fge a c = true.
Proof.
  unfold fge. rewrite !FloatAxioms.leb_spec. intros Hab Hbc. eapply SFleb_trans; eassumption.
Qed.

Lemma fge_095_085 c : fge c 0.95 = true -> fge c 0.85 = true.
Proof. intros H. apply (fge_trans c 0.95 0.85 H). reflexivity. Qed.

Lemma fge_095_09 c : fge c 0.95 = true -> fge c 0.9 = true.
Proof. intros H. apply (fge_trans c 0.95 0.9 H). reflexivity. Qed.

(** ** Relations between the gates *)

(** X1: a recommendation that passes the severity gate on a critical issue passes
    it on an issue of any severity. *)
Theorem severity_gate_critical_is_strictest (issue issue' : Issue.t) (r : Recommendation.t) :
  Issue.severity issue = CRITICAL ->
  _evaluate_severity_risk issue r = true ->
  _evaluate_severity_risk issue' r = true.
Proof.
  unfold _evaluate_severity_risk. intros -> Hpass.
  rewrite bool_decide_eq_true_2 in Hpass by reflexivity.
  destruct (bool_decide (Issue.severity issue' = CRITICAL)); [exact Hpass |].
  destruct (bool_decide (Issue.severity issue' = HIGH)); [| reflexivity].
  now apply fge_095_085.
Qed.

Lemma business_impact_passes_critical self issue r w :
  critical_services_affected self issue = true ->
  business_impact_passes self issue r w
  = action_in (Recommendation.action_type r) [SCALE_UP; CONFIGURATION_CHANGE]
    && fge (Recommendation.confidence_score r) 0.9.
Proof.
  unfold critical_services_affected, business_impact_passes, _evaluate_business_impact.
  intros ->. reflexivity.
Qed.

Lemma business_impact_passes_hours self issue r w :
  critical_services_affected self issue = false ->
  business_impact_passes self issue r w
  = negb (business_hours_only self
          && negb ((9 <=? hour (wall_clock w (ticks w)))
                   && (hour (wall_clock w (ticks w)) <=? 17))
          && severity_in (Issue.severity issue) [HIGH; CRITICAL]).
Proof.
  unfold critical_services_affected, business_impact_passes, _evaluate_business_impact.
  intros ->. destruct (business_hours_only self); [| reflexivity].
  unfold bind, now. cbn [wall_clock ticks set_ticks]. simpl andb.
  destruct (negb _ && _); reflexivity.
Qed.

(** X2: when a critical service is affected, a recommendation that passes the
    business-impact gate also passes the technical-feasibility gate. *)
Theorem critical_service_gate_implies_feasible self issue r w :
  critical_services_affected self issue = true ->
  business_impact_passes self issue r w = true ->
  _evaluate_technical_feasibility r = true.
Proof.
  intros Hcrit. rewrite (business_impact_passes_critical _ _ _ _ Hcrit).
  unfold _evaluate_technical_feasibility.
  destruct (Recommendation.action_type r); simpl; try discriminate; reflexivity.
Qed.

(** ** Confidence only helps *)

Lemma severity_risk_monotone issue r c' :
  fge c' (Recommendation.confidence_score r) = true ->
  _evaluate_severity_risk issue r = true ->
  _evaluate_severity_risk issue (with_confidence c' r) = true.
Proof.
  unfold _evaluate_severity_risk. unfold with_confidence; cbn [Recommendation.action_type Recommendation.confidence_score]. intros Hge.
  destruct (bool_decide _); [intros H; exact (fge_trans _ _ _ Hge H) |].
  destruct (bool_decide _); [intros H; exact (fge_trans _ _ _ Hge H) | reflexivity].
Qed.

Lemma technical_feasibility_monotone r c' :
  fge c' (Recommendation.confidence_score r) = true ->
  _evaluate_technical_feasibility r = true ->
  _evaluate_technical_feasibility (with_confidence c' r) = true.
Proof.
  unfold _evaluate_technical_feasibility. unfold with_confidence; cbn [Recommendation.action_type Recommendation.confidence_score]. intros Hge.
  destruct (action_in _ _); [intros H; exact (fge_trans _ _ _ Hge H) | tauto].
Qed.

Lemma business_impact_monotone self issue r c' w :
  fge c' (Recommendation.confidence_score r) = true ->
  business_impact_passes self issue r w = true ->
  business_impact_passes self issue (with_confidence c' r) w = true.
Proof.
  intros Hge.
  destruct (critical_services_affected self issue) eqn:Hcrit.
  - rewrite !(business_impact_passes_critical _ _ _ _ Hcrit). unfold with_confidence; cbn [Recommendation.action_type Recommendation.confidence_score].
    intros H. apply andb_true_iff in H as [Ha Hc]. rewrite Ha. cbn [andb].
    exact (fge_trans _ _ _ Hge Hc).
  - rewrite !(business_impact_passes_hours _ _ _ _ Hcrit). tauto.
Qed.

Lemma all_gates_monotone self issue r c' w :
  fge c' (Recommendation.confidence_score r) = true ->
  all_gates_pass self issue r w = true ->
  all_gates_pass self issue (with_confidence c' r) w = true.
Proof.
  unfold all_gates_pass. intros Hge H.
  apply andb_true_iff in H as [H Ht]. apply andb_true_iff in H as [H Hb].
  apply andb_true_iff in H as [Hc Hs].
  rewrite (severity_risk_monotone _ _ _ Hge Hs),
    (business_impact_monotone _ _ _ _ _ Hge Hb),
    (technical_feasibility_monotone _ _ Hge Ht).
  unfold with_confidence; cbn [Recommendation.action_type Recommendation.confidence_score]. rewrite (fge_trans _ _ _ Hge Hc). reflexivity.
Qed.

Lemma disposition_outcome b r issue :
  fst (fst (disposition b r issue))
  = if b then AUTO_RESOLVE
    else if fge (Recommendation.confidence_score r) 0.6
            && negb (bool_decide (Issue.severity issue = CRITICAL))
         then SCHEDULE_MAINTENANCE else ESCALATE_HUMAN.
Proof. unfold disposition. destruct b; [reflexivity |]. now destruct (_ && _). Qed.

Lemma confidence_with_confidence c r :
  Recommendation.confidence_score (with_confidence c r) = c.
Proof. reflexivity. Qed.

Lemma disposition_monotone self issue r c' w :
  fge c' (Recommendation.confidence_score r) = true ->
  (autonomy (fst (fst (disposition (all_gates_pass self issue r w) r issue)))
   <= autonomy (fst (fst (disposition (all_gates_pass self issue (with_confidence c' r) w)
                            (with_confidence c' r) issue))))%nat.
Proof.
  intros Hge. rewrite !disposition_outcome, confidence_with_confidence.
  destruct (all_gates_pass self issue r w) eqn:Hall.
  - rewrite (all_gates_monotone _ _ _ _ _ Hge Hall). simpl. lia.
  - destruct (fge (Recommendation.confidence_score r) 0.6) eqn:H06.
    + rewrite (fge_trans _ _ _ Hge H06).
      destruct (negb (bool_decide (Issue.severity issue = CRITICAL)));
        destruct (all_gates_pass self issue (with_confidence c' r) w); simpl; lia.
    + cbn [andb autonomy]. lia.
Qed.

(** X3: raising the confidence of a recommendation, everything else equal, never
    gives a less autonomous outcome: escalate-human may become
    schedule-maintenance or auto-resolve, schedule-maintenance may become
    auto-resolve, auto-resolve stays. *)
Theorem confidence_only_helps self r c' issues w x w1 x' w1' :
  fge c' (Recommendation.confidence_score r) = true ->
  _make_decision self r issues w = (inr x, w1) ->
  _make_decision self (with_confidence c' r) issues w = (inr x', w1') ->
  (autonomy (Decision.outcome (store w1 x))
   <= autonomy (Decision.outcome (store w1' x')))%nat.
Proof.
  intros Hge Hrun Hrun'.
  destruct (issues !! Recommendation.issue_id r) as [issue |] eqn:Hlook.
  - destruct (make_decision_found_inv _ _ _ _ _ _ _ Hlook Hrun)
      as (k & -> & _ & _ & _ & ->).
    destruct (make_decision_found_inv self (with_confidence c' r) _ _ _ _ _ Hlook Hrun')
      as (k' & -> & _ & _ & _ & ->).
    rewrite !update_same. unfold provisional.
    pose proof (disposition_monotone self issue r c' w Hge) as Hmono.
    destruct (disposition (all_gates_pass self issue r w) r issue) as [[o a] rs].
    destruct (disposition _ (with_confidence c' r) issue) as [[o' a'] rs'].
    exact Hmono.
  - unfold _make_decision in Hrun, Hrun'. simpl in Hrun'. rewrite Hlook in Hrun, Hrun'.
    apply create_escalation_decision_inv in Hrun as (-> & _ & d & -> & Ho & _).
    apply create_escalation_decision_inv in Hrun' as (-> & _ & d' & -> & Ho' & _).
    rewrite !update_same, Ho, Ho'. reflexivity.
Qed.

(** ** More on the evaluator *)

Lemma all_gates_pass_inv self issue r w :
  all_gates_pass self issue r w = true ->
  fge (Recommendation.confidence_score r) (confidence_threshold self) = true
  /\ _evaluate_severity_risk issue r = true
  /\ business_impact_passes self issue r w = true
  /\ _evaluate_technical_feasibility r = true.
Proof.
  unfold all_gates_pass. intros H.
  apply andb_true_iff in H as [H Ht]. apply andb_true_iff in H as [H Hb].
  apply andb_true_iff in H as [Hc Hs]. tauto.
Qed.

(** An auto-resolve decision comes from a known issue whose four gates passed. *)
Lemma auto_resolve_inv self r issues w x w' :
  _make_decision self r issues w = (inr x, w') ->
  Decision.outcome (store w' x) = AUTO_RESOLVE ->
  exists issue,
    issues !! Recommendation.issue_id r = Some issue
    /\ all_gates_pass self issue r w = true.
Proof.
  intros Hrun Hauto.
  destruct (issues !! Recommendation.issue_id r) as [issue |] eqn:Hlook.
  - exists issue. split; [reflexivity |].
    destruct (make_decision_found_inv _ _ _ _ _ _ _ Hlook Hrun)
      as (k & -> & _ & _ & _ & Hstore).
    rewrite Hstore, update_same in Hauto. unfold provisional in Hauto.
    pose proof (disposition_outcome (all_gates_pass self issue r w) r issue) as Hout.
    destruct (disposition _ r issue) as [[o a] rs]. simpl in Hout, Hauto. subst o.
    destruct (all_gates_pass self issue r w); [reflexivity |].
    destruct (_ && _); discriminate.
  - unfold _make_decision in Hrun. rewrite Hlook in Hrun.
    apply create_escalation_decision_inv in Hrun as (-> & _ & d & Hstore & Ho & _).
    rewrite Hstore, update_same, Ho in Hauto. discriminate.
Qed.

(** X4: what every auto-resolve decision of the evaluator satisfies: its issue is
    known; the confidence reaches the configured threshold; the action is one
    of scale up, configuration change, restart service, rollback and code fix,
    the last two only from confidence 0.9; a critical issue needs confidence
    0.95 and a high one 0.85; with a critical service affected the action is
    scale up or configuration change at confidence 0.9; and in business-hours
    mode, with no critical service affected, a high or critical issue is only
    resolved when the hour read is from 9 to 17. *)
Theorem auto_resolve_requires self r issues w x w' :
  _make_decision self r issues w = (inr x, w') ->
  Decision.outcome (store w' x) = AUTO_RESOLVE ->
  exists issue,
    issues !! Recommendation.issue_id r = Some issue
    /\ fge (Recommendation.confidence_score r) (confidence_threshold self) = true
    /\ Recommendation.action_type r
       ∈ [SCALE_UP; CONFIGURATION_CHANGE; RESTART_SERVICE; ROLLBACK; CODE_FIX]
    /\ (Recommendation.action_type r ∈ [ROLLBACK; CODE_FIX] ->
        fge (Recommendation.confidence_score r) 0.9 = true)
    /\ (Issue.severity issue = CRITICAL ->
        fge (Recommendation.confidence_score r) 0.95 = true)
    /\ (Issue.severity issue = HIGH ->
        fge (Recommendation.confidence_score r) 0.85 = true)
    /\ (critical_services_affected self issue = true ->
        Recommendation.action_type r ∈ [SCALE_UP; CONFIGURATION_CHANGE]
        /\ fge (Recommendation.confidence_score r) 0.9 = true)
    /\ (critical_services_affected self issue = false ->
        business_hours_only self = true ->
        Issue.severity issue ∈ [HIGH; CRITICAL] ->
        9 <= hour (wall_clock w (ticks w)) <= 17).
Proof.
  intros Hrun Hauto.
  destruct (auto_resolve_inv _ _ _ _ _ _ Hrun Hauto) as (issue & Hlook & Hall).
  apply all_gates_pass_inv in Hall as (Hc & Hs & Hb & Ht).
  exists issue. split; [exact Hlook |]. split; [exact Hc |].
  unfold _evaluate_technical_feasibility in Ht. unfold _evaluate_severity_risk in Hs.
  split; [| split; [| split; [| split; [| split]]]].
  - destruct (Recommendation.action_type r); simpl in Ht; try discriminate;
      apply list_elem_of_In; simpl; tauto.
  - intros Hin. apply list_elem_of_In in Hin. simpl in Hin.
    destruct Hin as [Ha | [Ha | []]]; rewrite <- Ha in Ht; exact Ht.
  - intros Hsev. rewrite Hsev in Hs. exact Hs.
  - intros Hsev. rewrite Hsev in Hs. exact Hs.
  - intros Hcrit. rewrite (business_impact_passes_critical _ _ _ _ Hcrit) in Hb.
    apply andb_true_iff in Hb as [Ha Hc9]. split; [| exact Hc9].
    destruct (Recommendation.action_type r); simpl in Ha; try discriminate;
      apply list_elem_of_In; simpl; tauto.
  - intros Hcrit Hhours Hsev.
    rewrite (business_impact_passes_hours _ _ _ _ Hcrit), Hhours in Hb.
    assert (Hin : severity_in (Issue.severity issue) [HIGH; CRITICAL] = true).
    { apply list_elem_of_In in Hsev. simpl in Hsev.
      destruct Hsev as [<- | [<- | []]]; reflexivity. }
    rewrite Hin, andb_true_r in Hb. simpl in Hb.
    apply negb_true_iff, negb_false_iff, andb_true_iff in Hb as [H9 H17].
    apply Z.leb_le in H9, H17. lia.
Qed.


(** ** What the evaluator leaves alone *)


Lemma extends_trans w1 w2 w3 : extends w1 w2 -> extends w2 w3 -> extends w1 w3.
Proof.
  unfold extends. intros (H1 & H2 & H3 & H4) (H5 & H6 & H7 & H8).
  repeat split; try congruence; try lia.
  intros x Hx. rewrite H8 by lia. now apply H4.
Qed.

Lemma same_objects_extends w w' : same_objects w w' -> extends w w'.
Proof.
  unfold same_objects, extends. intros (H1 & H2 & H3 & H4).
  repeat split; intros; try congruence; try lia.
Qed.

Lemma grows_reads_only {A} (m : M A) : reads_only m -> grows m.
Proof. intros H w res w' Hrun. apply same_objects_extends. eapply H. eassumption. Qed.

Lemma grows_bind {A B} (m : M A) (f : A -> M B) :
  grows m -> (forall a, grows (f a)) -> grows (bind m f).
Proof.
  intros Hm Hf w res w' H. unfold bind in H.
  destruct (m w) as [[e | a] w1] eqn:Hmw.
  - injection H as _ <-. eapply Hm; eassumption.
  - eapply extends_trans; [eapply Hm | eapply Hf]; eassumption.
Qed.

Lemma grows_new_decision d : grows (new_decision d).
Proof.
  intros w res w' H. injection H as _ <-. unfold extends. simpl.
  repeat split; try lia. intros x Hx. apply update_other. lia.
Qed.

Lemma reads_only_business_impact self issue r :
  reads_only (_evaluate_business_impact self issue r).
Proof.
  intros w res w1 Hrun.
  destruct (business_impact_runs self issue r w) as (b & k & w2 & Hb & Hsame & _).
  rewrite Hb in Hrun. injection Hrun as _ <-. exact Hsame.
Qed.

#[local] Hint Resolve grows_reads_only grows_new_decision reads_only_business_impact : reads.

Lemma grows_create_escalation_decision r reason :
  grows (_create_escalation_decision r reason).
Proof.
  unfold _create_escalation_decision.
  repeat (apply grows_bind; [auto with reads | intros ?]).
  auto with reads.
Qed.

(** Whatever it returns or raises, the evaluator keeps the history and every
    existing object as they are. *)
Lemma grows_make_decision self r issues : grows (_make_decision self r issues).
Proof.
  unfold _make_decision.
  destruct (issues !! Recommendation.issue_id r) as [issue |].
  - apply grows_bind; [auto with reads | intros b].
    destruct (disposition _ r issue) as [[o a] rs].
    repeat (apply grows_bind; [auto with reads | intros ?]).
    auto with reads.
  - apply grows_create_escalation_decision.
Qed.

Lemma grows_make_decisions self issues recommendations :
  forall decisions, grows (make_decisions self recommendations issues decisions).
Proof.
  induction recommendations as [| r rest IH]; intros decisions; simpl.
  - auto with reads.
  - apply grows_bind; [apply grows_make_decision | intros x; apply IH].
Qed.

Lemma create_escalation_decision_built r reason w x w' :
  _create_escalation_decision r reason w = (inr x, w') ->
  store w' x
  = Decision.mk ("escalation_" +:+ strftime_compact (wall_clock w (ticks w)))
      (Recommendation.issue_id r) r ESCALATE_HUMAN 0%float reason
      (wall_clock w (S (ticks w))) false
      (wall_clock w (S (S (ticks w))) + 2 * US_PER_HOUR).
Proof.
  unfold _create_escalation_decision, bind, now, lift, new_decision.
  destruct (timedelta _) as [e | d] eqn:Hd; [discriminate |].
  apply timedelta_inv in Hd. subst d.
  cbn [wall_clock ticks set_ticks].
  destruct (datetime_add _ _) as [e | c] eqn:Hc; [discriminate |].
  apply datetime_add_inv in Hc. subst c.
  intros H. injection H as <- <-. simpl. now rewrite update_same.
Qed.

(** The fields of a returned decision. *)
Lemma make_decision_fields self r issues w x w' :
  _make_decision self r issues w = (inr x, w') ->
  x = next_ref w
  /\ next_ref w' = S (next_ref w)
  /\ Decision.issue_id (store w' x) = Recommendation.issue_id r
  /\ Decision.recommendation (store w' x) = r
  /\ (exists n, (ticks w <= n)%nat
        /\ Decision.timestamp (store w' x) = wall_clock w n
        /\ (is_Some (issues !! Recommendation.issue_id r) ->
            Decision.confidence (store w' x) = Recommendation.confidence_score r
            /\ Decision.estimated_completion (store w' x)
               = wall_clock w (S n) + Recommendation.time_estimate r * US_PER_MINUTE)).
Proof.
  intros Hrun.
  destruct (make_decision_post _ _ _ _ _ _ Hrun) as (Hx & Hnext & _).
  split; [exact Hx |]. split; [exact Hnext |].
  destruct (issues !! Recommendation.issue_id r) as [issue |] eqn:Hlook.
  - destruct (make_decision_found_inv _ _ _ _ _ _ _ Hlook Hrun)
      as (k & _ & _ & _ & _ & Hstore).
    rewrite Hx, Hstore, update_same. unfold provisional.
    destruct (disposition _ r issue) as [[o a] rs]. simpl.
    split; [reflexivity |]. split; [reflexivity |].
    exists (ticks w + k + 1)%nat. split; [lia |]. split; [reflexivity |].
    intros _. split; [reflexivity |].
    replace (S (ticks w + k + 1)) with (ticks w + k + 2)%nat by lia. reflexivity.
  - unfold _make_decision in Hrun. rewrite Hlook in Hrun.
    rewrite (create_escalation_decision_built _ _ _ _ _ Hrun). simpl.
    split; [reflexivity |]. split; [reflexivity |].
    exists (S (ticks w)). split; [lia |]. split; [reflexivity |].
    intros [? Habs]. discriminate.
Qed.

(** X6: every decision the evaluator returns is a new object that carries the
    issue id of its recommendation and the recommendation itself, stamped with
    a clock reading; for a known issue it copies the confidence and its
    estimated completion is the next clock reading plus the time estimate in
    minutes. *)
Theorem decision_carries_recommendation self r issues w x w' :
  _make_decision self r issues w = (inr x, w') ->
  x = next_ref w
  /\ next_ref w' = S (next_ref w)
  /\ Decision.issue_id (store w' x) = Recommendation.issue_id r
  /\ Decision.recommendation (store w' x) = r
  /\ (exists n, (ticks w <= n)%nat
        /\ Decision.timestamp (store w' x) = wall_clock w n
        /\ (is_Some (issues !! Recommendation.issue_id r) ->
            Decision.confidence (store w' x) = Recommendation.confidence_score r
            /\ Decision.estimated_completion (store w' x)
               = wall_clock w (S n) + Recommendation.time_estimate r * US_PER_MINUTE)).
Proof. apply make_decision_fields. Qed.

(** ** Time estimates out of range *)

Lemma timedelta_out us :
  ~ (- 999999999 * US_PER_DAY <= us < 1000000000 * US_PER_DAY) ->
  timedelta us = inl OverflowError.
Proof.
  intros H. unfold timedelta.
  destruct (_ <=? _) eqn:H1; [| reflexivity].
  destruct (_ <? _) eqn:H2; [| reflexivity].
  apply Z.leb_le in H1. apply Z.ltb_lt in H2. lia.
Qed.

Lemma datetime_add_out t d :
  ~ (0 <= t + d < DATETIME_END) -> datetime_add t d = inl OverflowError.
Proof.
  intros H. unfold datetime_add.
  destruct (_ <=? _) eqn:H1; [| reflexivity].
  destruct (_ <? _) eqn:H2; [| reflexivity].
  apply Z.leb_le in H1. apply Z.ltb_lt in H2. lia.
Qed.

Lemma timedelta_raises us e : timedelta us = inl e -> e = OverflowError.
Proof. unfold timedelta. destruct (_ && _); congruence. Qed.

Lemma datetime_add_raises t d e : datetime_add t d = inl e -> e = OverflowError.
Proof. unfold datetime_add. destruct (_ && _); congruence. Qed.

(** The only exception of the evaluator is [OverflowError]. *)
Lemma make_decision_raises self r issues w e w' :
  _make_decision self r issues w = (inl e, w') -> e = OverflowError.
Proof.
  unfold _make_decision.
  destruct (issues !! Recommendation.issue_id r) as [issue |].
  - destruct (business_impact_runs self issue r w) as (b & k & w1 & Hb & _).
    unfold bind at 1. rewrite Hb.
    destruct (disposition _ r issue) as [[o a] rs].
    unfold bind, now, lift, new_decision.
    destruct (timedelta _) as [e1 | d] eqn:Hd.
    + intros H. injection H as <- _. eapply timedelta_raises; eassumption.
    + cbn [wall_clock ticks set_ticks].
      destruct (datetime_add _ _) as [e1 | c] eqn:Hc; [| discriminate].
      intros H. injection H as <- _. eapply datetime_add_raises; eassumption.
  - unfold _create_escalation_decision, bind, now, lift, new_decision.
    destruct (timedelta _) as [e1 | d] eqn:Hd.
    + intros H. injection H as <- _. eapply timedelta_raises; eassumption.
    + cbn [wall_clock ticks set_ticks].
      destruct (datetime_add _ _) as [e1 | c] eqn:Hc; [| discriminate].
      intros H. injection H as <- _. eapply datetime_add_raises; eassumption.
Qed.

Lemma make_decision_out_of_range self r issues issue w :
  issues !! Recommendation.issue_id r = Some issue ->
  estimate_out_of_range w (Recommendation.time_estimate r) ->
  fst (_make_decision self r issues w) = inl OverflowError.
Proof.
  intros Hlook Hout. unfold _make_decision. rewrite Hlook.
  destruct (business_impact_runs self issue r w) as (b & k & w1 & Hb & Hsame & _).
  destruct Hsame as (Hclk & _).
  unfold bind at 1. rewrite Hb.
  destruct (disposition _ r issue) as [[o a] rs].
  unfold bind, now, lift, new_decision.
  destruct (timedelta _) as [e1 | d] eqn:Hd.
  - simpl. f_equal. eapply timedelta_raises; eassumption.
  - cbn [wall_clock ticks set_ticks]. rewrite Hclk.
    destruct Hout as [Hdelta | Hclock].
    + rewrite (timedelta_out _ Hdelta) in Hd. discriminate.
    + apply timedelta_inv in Hd. subst d.
      rewrite (datetime_add_out _ _ (Hclock _)). reflexivity.
Qed.

(** X7: one recommendation for a known issue whose time estimate is out of range
    makes the whole evaluation of the batch raise [OverflowError]: no list of
    decisions is produced, and the history and the existing objects stay as
    they were. *)
Theorem out_of_range_estimate_voids_batch self issues recommendations r issue decisions w :
  r ∈ recommendations ->
  issues !! Recommendation.issue_id r = Some issue ->
  estimate_out_of_range w (Recommendation.time_estimate r) ->
  fst (make_decisions self recommendations issues decisions w) = inl OverflowError
  /\ extends w (snd (make_decisions self recommendations issues decisions w)).
Proof.
  intros Hin Hlook Hout. split.
  2:{ destruct (make_decisions _ _ _ _ w) as [res w'] eqn:Hrun.
      eapply grows_make_decisions. eassumption. }
  revert decisions w Hout.
  induction recommendations as [| r0 rest IH]; intros decisions w Hout.
  - now apply not_elem_of_nil in Hin.
  - simpl. unfold bind.
    destruct (_make_decision self r0 issues w) as [[e | x] w1] eqn:Hone.
    + simpl. f_equal. eapply make_decision_raises; eassumption.
    + apply elem_of_cons in Hin as [-> | Hin].
      * pose proof (make_decision_out_of_range self r0 issues issue w Hlook Hout) as Habs.
        rewrite Hone in Habs. discriminate.
      * apply IH; [exact Hin |].
        destruct (grows_make_decision self r0 issues w _ _ Hone) as (Hclk & _).
        unfold estimate_out_of_range in *. now rewrite Hclk.
Qed.

(** ** Identifiers *)

Lemma strftime_same_second t1 t2 :
  t1 / US_PER_SECOND = t2 / US_PER_SECOND ->
  strftime_compact t1 = strftime_compact t2.
Proof.
  intros H.
  assert (Hday : forall t, t / US_PER_DAY = t / US_PER_SECOND / 86400).
  { intros t. rewrite Z.div_div by (unfold US_PER_SECOND; lia). reflexivity. }
  assert (Hhour : forall t, t / US_PER_HOUR = t / US_PER_SECOND / 3600).
  { intros t. rewrite Z.div_div by (unfold US_PER_SECOND; lia). reflexivity. }
  assert (Hmin : forall t, t / US_PER_MINUTE = t / US_PER_SECOND / 60).
  { intros t. rewrite Z.div_div by (unfold US_PER_SECOND; lia). reflexivity. }
  unfold strftime_compact, ymd, hour, minute, second.
  rewrite !Hday, !Hhour, !Hmin, H. reflexivity.
Qed.

(** X8: decision ids are not unique: two recommendations with the same issue id
    that are evaluated one after the other within one second of the clock get
    two distinct objects with the same id. *)
Theorem same_second_same_id self r1 r2 issues w x1 w1 x2 w2 :
  Recommendation.issue_id r1 = Recommendation.issue_id r2 ->
  (forall n m, wall_clock w n / US_PER_SECOND = wall_clock w m / US_PER_SECOND) ->
  _make_decision self r1 issues w = (inr x1, w1) ->
  _make_decision self r2 issues w1 = (inr x2, w2) ->
  x1 <> x2 /\ Decision.id (store w2 x1) = Decision.id (store w2 x2).
Proof.
  intros Hid Hsec Hrun1 Hrun2.
  destruct (make_decision_post _ _ _ _ _ _ Hrun1) as (Hx1 & Hnext1 & _).
  destruct (make_decision_post _ _ _ _ _ _ Hrun2) as (Hx2 & _ & _).
  destruct (grows_make_decision _ _ _ _ _ _ Hrun1) as (Hclk & _).
  destruct (grows_make_decision _ _ _ _ _ _ Hrun2) as (_ & _ & _ & Hkeep).
  split; [lia |].
  rewrite (Hkeep x1) by lia.
  destruct (issues !! Recommendation.issue_id r1) as [issue |] eqn:Hlook.
  - destruct (make_decision_found_inv _ _ _ _ _ _ _ Hlook Hrun1)
      as (k1 & _ & _ & _ & _ & Hs1).
    rewrite Hid in Hlook.
    destruct (make_decision_found_inv _ _ _ _ _ _ _ Hlook Hrun2)
      as (k2 & _ & _ & _ & _ & Hs2).
    rewrite Hx1, Hs1, update_same, Hx2, Hs2, update_same. unfold provisional.
    destruct (disposition _ r1 issue) as [[o a] rs].
    destruct (disposition _ r2 issue) as [[o' a'] rs']. simpl.
    rewrite Hclk, Hid.
    rewrite (strftime_same_second (wall_clock w (ticks w + k1))
               (wall_clock w (ticks w1 + k2)) (Hsec _ _)).
    reflexivity.
  - unfold _make_decision in Hrun1, Hrun2. rewrite <- Hid, Hlook in Hrun2.
    rewrite Hlook in Hrun1.
    rewrite (create_escalation_decision_built _ _ _ _ _ Hrun1),
      (create_escalation_decision_built _ _ _ _ _ Hrun2). simpl.
    rewrite Hclk.
    rewrite (strftime_same_second (wall_clock w (ticks w))
               (wall_clock w (ticks w1)) (Hsec _ _)).
    reflexivity.
Qed.

(** ** The budget of the arbiter *)

Lemma filter_all {A} (f : A -> bool) (l : list A) :
  (forall x, In x l -> f x = true) -> List.filter f l = l.
Proof.
  induction l as [| y l IH]; intros H; simpl; [reflexivity |].
  rewrite (H y) by (now left). f_equal. apply IH. intros x Hx. apply H. now right.
Qed.

Lemma filter_none {A} (f : A -> bool) (l : list A) :
  (forall x, In x l -> f x = false) -> List.filter f l = [].
Proof.
  induction l as [| y l IH]; intros H; simpl; [reflexivity |].
  rewrite (H y) by (now left). apply IH. intros x Hx. apply H. now right.
Qed.

Lemma filter_filter {A} (f g : A -> bool) (l : list A) :
  List.filter (fun x => f x && g x) l = List.filter g (List.filter f l).
Proof.
  induction l as [| y l IH]; simpl; [reflexivity |].
  destruct (f y); simpl; [destruct (g y); simpl; now rewrite IH | exact IH].
Qed.

Lemma filter_not_second (l1 l2 : list ref) :
  NoDup (l1 ++ l2) ->
  List.filter (fun x => negb (bool_decide (x ∈ l2))) (l1 ++ l2) = l1.
Proof.
  intros Hnodup. apply NoDup_app in Hnodup as (_ & Hdisj & _).
  rewrite List.filter_app, filter_all, filter_none, app_nil_r; [reflexivity | |].
  - intros x Hx. apply list_elem_of_In in Hx.
    now rewrite bool_decide_eq_true_2.
  - intros x Hx. apply list_elem_of_In in Hx.
    rewrite bool_decide_eq_false_2; [reflexivity |]. now apply Hdisj.
Qed.

(** Dropping from a duplicate-free list what lies past position [k]. *)
Lemma filter_not_dropped (k : nat) (l : list ref) :
  NoDup l ->
  List.filter (fun x => negb (bool_decide (x ∈ drop k l))) l = take k l.
Proof.
  intros Hnodup.
  pose proof (filter_not_second (take k l) (drop k l)) as H.
  rewrite take_drop in H. now apply H.
Qed.

Lemma survivors_of_rate_limit (s s' : ref -> Decision.t) (batch : list ref) (k : nat) :
  NoDup batch ->
  (forall x, s' x = if bool_decide
                         (x ∈ drop k (List.filter (fun y => is_auto_resolve (s y)) batch))
                    then downgrade (s x) else s x) ->
  List.filter (fun x => is_auto_resolve (s' x)) batch
  = take k (List.filter (fun y => is_auto_resolve (s y)) batch).
Proof.
  intros Hnodup Hs'.
  rewrite <- filter_not_dropped
    by (apply NoDup_ListNoDup, List.NoDup_filter; now apply NoDup_ListNoDup).
  rewrite <- filter_filter.
  apply filter_ext. intros x. rewrite Hs'.
  destruct (bool_decide _) eqn:Hd.
  - rewrite downgrade_not_auto. now rewrite andb_false_r.
  - now rewrite andb_true_r.
Qed.

(** The loop on a batch of distinct decisions that are not in the history:
    what is left of the auto-approved auto-resolve decisions. *)
Lemma rate_limit_loop_budget cap (s : ref -> Decision.t) (batch kept : list ref) :
  NoDup batch ->
  (forall x, x ∈ batch -> x ∉ kept) ->
  let recent := count_auto_approvals s kept in
  let s' := fst (fst (rate_limit_loop cap recent batch s 0 [] kept)) in
  count_auto_approvals s' batch
  = Z.min (count_auto_approvals s batch) (Z.max 0 (cap - recent))
  /\ count_auto_approvals s' kept = recent.
Proof.
  intros Hnodup Hfresh recent s'.
  set (autos := List.filter (fun y => is_auto_resolve (s y)) batch).
  set (k := Z.to_nat (cap - recent)).
  assert (Hspec : forall x, s' x
            = if bool_decide (x ∈ drop k autos) then downgrade (s x) else s x).
  { intros x. unfold s'.
    rewrite (rate_limit_loop_spec _ _ _ _ _ _ _ x Hnodup). cbv zeta.
    subst k autos. replace (cap - recent - 0) with (cap - recent) by lia.
    reflexivity. }
  split.
  - unfold count_auto_approvals at 1 2.
    rewrite (survivors_of_rate_limit s s' batch k Hnodup Hspec).
    fold autos. rewrite length_take. subst k. lia.
  - unfold recent, count_auto_approvals. do 2 f_equal.
    apply filter_ext_in. intros x Hx. rewrite Hspec.
    rewrite bool_decide_eq_false_2; [reflexivity |].
    intros Hd. apply subseteq_drop in Hd.
    apply list_elem_of_In, filter_In in Hd as [Hd _]. apply list_elem_of_In in Hd.
    apply (Hfresh x Hd). now apply list_elem_of_In.
Qed.

Lemma count_auto_approvals_nonneg s l : 0 <= count_auto_approvals s l.
Proof. unfold count_auto_approvals. lia. Qed.

(** X9: on a batch of distinct new decisions the arbiter leaves exactly as many
    auto-approved auto-resolve decisions as the hourly budget still allows:
    the smaller of their number and of the cap minus the recent count (none
    when that is negative).  The history it records then holds at most as many
    of them as the larger of the cap and the recent count. *)
Theorem budget_is_respected self batch w :
  clock_sane w ->
  NoDup batch ->
  (forall x, x ∈ batch -> x ∉ recent_decisions w) ->
  let recent := count_auto_approvals (store w)
                  (prune (store w) (wall_clock w (ticks w) - US_PER_HOUR)
                     (recent_decisions w)) in
  let cap := max_auto_deployments_per_hour self in
  exists w',
    _apply_business_rules self batch w = (inr batch, w')
    /\ count_auto_approvals (store w') batch
       = Z.min (count_auto_approvals (store w) batch) (Z.max 0 (cap - recent))
    /\ count_auto_approvals (store w') (recent_decisions w')
       = recent + count_auto_approvals (store w') batch
    /\ count_auto_approvals (store w') (recent_decisions w') <= Z.max cap recent.
Proof.
  intros Hclock Hnodup Hfresh recent cap.
  destruct (apply_business_rules_result self batch w Hclock)
    as (w' & Hrun & Hstore & Hhist & _).
  exists w'. split; [exact Hrun |].
  destruct (rate_limit_loop_budget cap (store w) batch
              (prune (store w) (wall_clock w (ticks w) - US_PER_HOUR) (recent_decisions w))
              Hnodup) as [Hbatch Hkept].
  { intros x Hx Hk. apply (Hfresh x Hx).
    apply list_elem_of_In, filter_In in Hk as [Hk _]. now apply list_elem_of_In. }
  subst recent cap. cbv zeta in Hbatch, Hkept.
  rewrite <- Hstore in Hbatch, Hkept.
  pose proof (count_auto_approvals_nonneg (store w) batch).
  split; [exact Hbatch |].
  rewrite Hhist, count_auto_approvals_app, Hkept.
  split; [reflexivity |]. rewrite Hbatch. lia.
Qed.

Lemma rate_limit_loop_exhausted cap recent decisions :
  forall s added filtered history,
    cap <= recent + added ->
    forall x, x ∈ decisions ->
      is_auto_resolve
        (fst (fst (rate_limit_loop cap recent decisions s added filtered history)) x) = false.
Proof.
  induction decisions as [| y rest IH]; intros s added filtered history Hcap x Hx.
  - now apply not_elem_of_nil in Hx.
  - simpl. apply Z.leb_le in Hcap as Hfull.
    destruct (is_auto_resolve (s y)) eqn:Hauto; [rewrite Hfull |].
    + apply elem_of_cons in Hx as [-> | Hx]; [| now apply IH].
      destruct (rate_limit_loop_frame cap recent rest
                  (update s y (downgrade (s y))) added
                  (filtered ++ [y]) (history ++ [y]) y) as [H | (_ & _ & H)];
        rewrite H, ?update_same; apply downgrade_not_auto.
    + apply elem_of_cons in Hx as [-> | Hx]; [| now apply IH].
      destruct (rate_limit_loop_frame cap recent rest s added
                  (filtered ++ [y]) (history ++ [y]) y) as [H | (_ & _ & H)];
        rewrite H; [exact Hauto | apply downgrade_not_auto].
Qed.

(** X10: with the budget exhausted, in particular with a cap of zero, no decision
    of the batch leaves the arbiter as an auto-approved auto-resolve: every
    candidate is scheduled for maintenance. *)
Theorem exhausted_budget_downgrades_all self batch w :
  clock_sane w ->
  max_auto_deployments_per_hour self
    <= count_auto_approvals (store w)
         (prune (store w) (wall_clock w (ticks w) - US_PER_HOUR) (recent_decisions w)) ->
  exists w',
    _apply_business_rules self batch w = (inr batch, w')
    /\ forall x, x ∈ batch ->
         is_auto_resolve (store w' x) = false
         /\ (is_auto_resolve (store w x) = true ->
             Decision.outcome (store w' x) = SCHEDULE_MAINTENANCE).
Proof.
  intros Hclock Hcap.
  destruct (apply_business_rules_result self batch w Hclock)
    as (w' & Hrun & Hstore & _).
  exists w'. split; [exact Hrun |].
  intros x Hx. rewrite Hstore. split.
  - apply rate_limit_loop_exhausted; [lia | exact Hx].
  - intros Hauto.
    pose proof (rate_limit_loop_exhausted (max_auto_deployments_per_hour self)
                  (count_auto_approvals (store w)
                     (prune (store w) (wall_clock w (ticks w) - US_PER_HOUR)
                        (recent_decisions w)))
                  batch (store w) 0 []
                  (prune (store w) (wall_clock w (ticks w) - US_PER_HOUR)
                     (recent_decisions w)) ltac:(lia) x Hx) as Hnot.
    destruct (rate_limit_loop_frame (max_auto_deployments_per_hour self)
                (count_auto_approvals (store w)
                   (prune (store w) (wall_clock w (ticks w) - US_PER_HOUR)
                      (recent_decisions w)))
                batch (store w) 0 []
                (prune (store w) (wall_clock w (ticks w) - US_PER_HOUR)
                   (recent_decisions w)) x) as [H | (_ & _ & H)].
    + rewrite H in Hnot. congruence.
    + rewrite H. reflexivity.
Qed.

(** ** The facade, call after call *)















(** ** Parsing *)

(** X15: [Severity(s.value)] is [s] and [ActionType(a.value)] is [a]; nothing but
    the value of a member is accepted. *)
Theorem enum_values_round_trip :
  (forall s, Severity_of (JStr (Severity_value s)) = inr s)
  /\ (forall v s, Severity_of v = inr s -> v = JStr (Severity_value s))
  /\ (forall a, ActionType_of (JStr (ActionType_value a)) = inr a)
  /\ (forall v a, ActionType_of v = inr a -> v = JStr (ActionType_value a)).
Proof.
  split; [| split; [| split]].
  - intros []; reflexivity.
  - intros v s H. destruct v; try discriminate. simpl in H.
    repeat match type of H with
           | (if String.eqb ?x ?y then _ else _) = _ =>
               destruct (String.eqb_spec x y); [subst; injection H as <-; reflexivity |]
           end.
    discriminate.
  - intros []; reflexivity.
  - intros v a H. destruct v; try discriminate. simpl in H.
    repeat match type of H with
           | (if String.eqb ?x ?y then _ else _) = _ =>
               destruct (String.eqb_spec x y); [subst; injection H as <-; reflexivity |]
           end.
    discriminate.
Qed.







(** ** Malformed and empty payloads *)


Lemma parse_issue_bad fromisoformat issues v w :
  bad_issue_record v ->
  exists e w', parse_issue fromisoformat issues v w = (inl e, w').
Proof.
  intros Hbad. destruct v as [| | | | | | fields];
    try (eexists _, _; unfold parse_issue, bind, lift, json_get; reflexivity).
  destruct Hbad as (sv & Hsv & Hval).
  unfold parse_issue, bind, lift, json_get. rewrite Hsv, Hval.
  eexists _, _. reflexivity.
Qed.

Lemma parse_issues_loop_bad fromisoformat items :
  Exists bad_issue_record items ->
  forall issues w,
    exists e w', parse_issues_loop fromisoformat items issues w = (inl e, w').
Proof.
  induction 1 as [v rest Hbad | v rest _ IH]; intros issues w; simpl; unfold bind.
  - destruct (parse_issue_bad fromisoformat issues v w Hbad) as (e & w' & ->).
    eexists _, _. reflexivity.
  - destruct (parse_issue fromisoformat issues v w) as [[e | issues1] w1].
    + eexists _, _. reflexivity.
    + apply IH.
Qed.

Lemma parse_recommendation_bad v :
  bad_recommendation_record v -> exists e, parse_recommendation v = inl e.
Proof.
  intros Hbad. destruct v as [| | | | | | fields];
    try (eexists; unfold parse_recommendation, json_get; reflexivity).
  destruct Hbad as (av & Hav & Hval).
  unfold parse_recommendation, json_get. rewrite Hav, Hval.
  destruct (as_str _); eexists; reflexivity.
Qed.

Lemma parse_recommendations_loop_bad items :
  Exists bad_recommendation_record items ->
  exists e, parse_recommendations_loop items = inl e.
Proof.
  induction 1 as [v rest Hbad | v rest _ IH]; simpl.
  - destruct (parse_recommendation_bad v Hbad) as (e & ->). eexists. reflexivity.
  - destruct (parse_recommendation v); [eexists; reflexivity |].
    destruct IH as (e & ->). eexists. reflexivity.
Qed.

Lemma raise_gives_empty_list json_loads fromisoformat self ai_response w :
  (exists e w',
     process_ai_analysis_try json_loads fromisoformat self ai_response w = (inl e, w')) ->
  fst (process_ai_analysis json_loads fromisoformat self ai_response w) = [].
Proof.
  intros (e & w' & H). unfold process_ai_analysis. rewrite H. now destruct e.
Qed.

(** X20: all or nothing: one issue record that is no object or has an unknown
    severity, or one recommendation record that is no object or has an
    unknown action type, makes the facade return the empty list, however many
    well-formed records the payload holds besides. *)
Theorem malformed_record_voids_call json_loads fromisoformat self ai_response analysis w :
  json_loads ai_response = inr analysis ->
  (exists items,
     json_get analysis "issues" (JArr []) = inr (JArr items)
     /\ Exists bad_issue_record items)
  \/ (exists items,
        json_get analysis "recommendations" (JArr []) = inr (JArr items)
        /\ Exists bad_recommendation_record items) ->
  fst (process_ai_analysis json_loads fromisoformat self ai_response w) = [].
Proof.
  intros Hloads Hbad. apply raise_gives_empty_list.
  unfold process_ai_analysis_try.
  unfold bind at 1, lift at 1. rewrite Hloads.
  destruct Hbad as [(items & Hget & Hbad) | (items & Hget & Hbad)].
  - unfold bind at 1, lift at 1. rewrite Hget.
    unfold bind at 1, _parse_issues, bind at 1, lift at 1, json_iter.
    destruct (parse_issues_loop_bad fromisoformat items Hbad ∅ w) as (e & w' & ->).
    eexists _, _. reflexivity.
  - unfold bind at 1, lift at 1.
    destruct (json_get analysis "issues" _) as [e | issues_data];
      [eexists _, _; reflexivity |].
    unfold bind at 1.
    destruct (_parse_issues fromisoformat issues_data w) as [[e | issues] w1];
      [eexists _, _; reflexivity |].
    unfold bind at 1, lift at 1. rewrite Hget.
    unfold bind at 1, lift at 1, _parse_recommendations, json_iter.
    destruct (parse_recommendations_loop_bad items Hbad) as (e & ->).
    eexists _, _. reflexivity.
Qed.

(** X21: an analysis object with neither issues nor recommendations is no error:
    the facade returns the empty list, reads the clock once and leaves the
    objects alone, yet it prunes the history. *)
Theorem empty_analysis_only_prunes json_loads fromisoformat self ai_response fields w :
  json_loads ai_response = inr (JObj fields) ->
  assoc "issues" fields = None ->
  assoc "recommendations" fields = None ->
  clock_sane w ->
  exists w',
    process_ai_analysis json_loads fromisoformat self ai_response w = ([], w')
    /\ store w' = store w
    /\ next_ref w' = next_ref w
    /\ ticks w' = S (ticks w)
    /\ recent_decisions w'
       = prune (store w) (wall_clock w (ticks w) - US_PER_HOUR) (recent_decisions w).
Proof.
  intros Hloads Hissues Hrecs Hclock.
  unfold process_ai_analysis, process_ai_analysis_try.
  unfold bind at 1, lift at 1. rewrite Hloads.
  unfold bind at 1, lift at 1, json_get. rewrite Hissues.
  unfold bind at 1, _parse_issues, bind at 1, lift at 1, json_iter.
  cbn [parse_issues_loop ret].
  unfold bind at 1, lift at 1. rewrite Hrecs.
  unfold bind at 1, lift at 1, _parse_recommendations, json_iter.
  cbn [parse_recommendations_loop].
  unfold bind at 1. cbn [make_decisions ret].
  rewrite apply_business_rules_runs by exact Hclock.
  cbn [rate_limit_loop]. eexists. split; [reflexivity |].
  simpl. repeat split.
Qed.

(** ** What is handed out as auto-resolve *)





(** ** The further properties at the sample data *)

Lemma frozen_world_sane : clock_sane frozen_world.
Proof. intros n. simpl. unfold sample_instant. time_lia. Qed.

Lemma endless_out_of_range :
  estimate_out_of_range sample_world (Recommendation.time_estimate endless_recommendation).
Proof.
  right. intros n. simpl. unfold steady_clock, sample_instant. time_lia.
Qed.

Lemma severity_gate_critical_is_strictest_witness :
  _evaluate_severity_risk sample_issue confident_recommendation = true.
Proof.
  apply (severity_gate_critical_is_strictest critical_issue sample_issue
           confident_recommendation); reflexivity.
Defined.

Lemma critical_service_gate_implies_feasible_witness :
  _evaluate_technical_feasibility eager_recommendation = true.
Proof.
  apply (critical_service_gate_implies_feasible sample_engine sample_issue
           eager_recommendation sample_world); reflexivity.
Defined.

(** Confidence 0.85 schedules the sample recommendation, 0.92 resolves it. *)
Lemma confidence_only_helps_witness :
  (autonomy (Decision.outcome
               (store (snd (_make_decision sample_engine sample_recommendation
                              sample_issues sample_world)) 0%nat))
   <= autonomy (Decision.outcome
                  (store (snd (_make_decision sample_engine
                                 (with_confidence 0.92 sample_recommendation)
                                 sample_issues sample_world)) 0%nat)))%nat.
Proof.
  apply (confidence_only_helps sample_engine sample_recommendation 0.92 sample_issues
           sample_world 0%nat _ 0%nat _); reflexivity.
Defined.

Lemma auto_resolve_requires_witness :
  exists issue,
    calm_issues !! Recommendation.issue_id eager_recommendation = Some issue
    /\ fge (Recommendation.confidence_score eager_recommendation)
           (confidence_threshold plain_engine) = true.
Proof.
  destruct (auto_resolve_requires plain_engine eager_recommendation calm_issues sample_world
              0%nat
              (snd (_make_decision plain_engine eager_recommendation calm_issues sample_world)))
    as (issue & Hlook & Hc & _).
  - reflexivity.
  - reflexivity.
  - exists issue. split; assumption.
Defined.


Lemma decision_carries_recommendation_witness :
  Decision.recommendation
    (store (snd (_make_decision plain_engine eager_recommendation calm_issues
                   sample_world)) 0%nat) = eager_recommendation.
Proof.
  apply (decision_carries_recommendation plain_engine eager_recommendation calm_issues
           sample_world 0%nat
           (snd (_make_decision plain_engine eager_recommendation calm_issues sample_world))).
  reflexivity.
Defined.

Lemma out_of_range_estimate_voids_batch_witness :
  fst (make_decisions plain_engine
         [eager_recommendation; endless_recommendation; eager_recommendation]
         calm_issues [] sample_world) = inl OverflowError.
Proof.
  apply (out_of_range_estimate_voids_batch plain_engine calm_issues
           [eager_recommendation; endless_recommendation; eager_recommendation]
           endless_recommendation calm_issue [] sample_world).
  - apply list_elem_of_further, list_elem_of_here.
  - reflexivity.
  - exact endless_out_of_range.
Defined.

(** Two decisions on the same issue while the clock stands still. *)
Lemma same_second_same_id_witness :
  0%nat <> 1%nat
  /\ Decision.id
       (store (snd (make_decisions plain_engine [eager_recommendation; eager_recommendation]
                      calm_issues [] frozen_world)) 0%nat)
     = Decision.id
         (store (snd (make_decisions plain_engine [eager_recommendation; eager_recommendation]
                        calm_issues [] frozen_world)) 1%nat).
Proof.
  apply (same_second_same_id plain_engine eager_recommendation eager_recommendation
           calm_issues frozen_world 0%nat
           (snd (_make_decision plain_engine eager_recommendation calm_issues frozen_world))
           1%nat _).
  - reflexivity.
  - intros n m. reflexivity.
  - reflexivity.
  - reflexivity.
Defined.

Lemma provisional_batch_distinct : NoDup provisional_batch.
Proof. apply (bool_decide_unpack _). vm_compute. exact I. Qed.

Lemma budget_is_respected_witness :
  exists w',
    _apply_business_rules plain_engine provisional_batch provisional_world
    = (inr provisional_batch, w')
    /\ count_auto_approvals (store w') provisional_batch = 5
    /\ count_auto_approvals (store w') (recent_decisions w') <= 5.
Proof.
  destruct (budget_is_respected plain_engine provisional_batch provisional_world
              provisional_world_sane provisional_batch_distinct)
    as (w' & Hrun & Hbatch & _ & Hcap).
  - intros x _ Hx. vm_compute in Hx. inversion Hx.
  - exists w'. split; [exact Hrun |]. split.
    + rewrite Hbatch. vm_compute. reflexivity.
    + exact Hcap.
Defined.

Lemma exhausted_budget_downgrades_all_witness :
  exists w',
    _apply_business_rules paused_engine provisional_batch provisional_world
    = (inr provisional_batch, w')
    /\ Decision.outcome (store w' 0%nat) = SCHEDULE_MAINTENANCE.
Proof.
  destruct (exhausted_budget_downgrades_all paused_engine provisional_batch provisional_world
              provisional_world_sane) as (w' & Hrun & Hall).
  - vm_compute. discriminate.
  - exists w'. split; [exact Hrun |].
    apply (Hall 0%nat); [apply list_elem_of_here | reflexivity].
Defined.





Lemma malformed_record_voids_call_witness :
  fst (process_ai_analysis sample_json_loads sample_fromisoformat sample_engine
         "malformed" sample_world) = [].
Proof.
  apply (malformed_record_voids_call sample_json_loads sample_fromisoformat sample_engine
           "malformed" malformed_payload sample_world).
  - reflexivity.
  - left. exists [sample_issue_json "urgent"]. split; [reflexivity |].
    apply Exists_cons_hd. exists (JStr "urgent"). split; reflexivity.
Defined.

Lemma empty_analysis_only_prunes_witness :
  exists w',
    process_ai_analysis bare_json_loads sample_fromisoformat sample_engine "{}" sample_world
    = ([], w')
    /\ ticks w' = 1%nat.
Proof.
  destruct (empty_analysis_only_prunes bare_json_loads sample_fromisoformat sample_engine
              "{}" [("generated_by", JStr "kestra")] sample_world)
    as (w' & Hrun & _ & _ & Hticks & _).
  - reflexivity.
  - reflexivity.
  - reflexivity.
  - exact sample_world_sane.
  - exists w'. split; [exact Hrun | exact Hticks].
Defined.






